(** * Crypto Cascade: the match-3 cascade engine of [CryptoCascade]

    A shallow embedding of the game logic of the React component
    (grid generation, match detection, the resolution step, the cascade
    loop and the click handler), followed by the properties of the
    specification that concern it.

    Conventions of the embedding.
    - A grid [(Token | null)[][]] is a list of rows, a row a list of cells,
      a cell an [option Token] ([None] is [null]).
    - Reading [grid[r][c]] throws a [TypeError] when row [r] is missing and
      yields [undefined] when only column [c] is missing; both are kept.
    - [Math.random()] and [Date.now()] are an oracle [nat -> Draw] read
      through a counter that the functions thread.
    - Numbers of the game state are integers ([Z]), which the doubles of
      the source represent exactly in the range of a game; the product by
      [1.5] is taken in [Q] and floored.
    - A state update [setCascadeState(prev => ...)] is a function of the
      state [prev] it is applied to; the state [cascadeState] that the
      render of the handler saw is a separate argument.
    - The [while (true)] loop takes fuel, and returns [None] when the fuel
      runs out before the loop leaves.
    - The audio calls ([sounds.*]) and the pacing delays have no effect on
      the game state and are left out. *)

From Stdlib Require Import String Ascii List Arith ZArith QArith Qround Bool Lia.
From Stdlib Require Import DecimalString DecimalNat.
Import ListNotations.

Local Open Scope string_scope.
Local Open Scope list_scope.
Local Open Scope nat_scope.

(* ================================================================== *)
(** ** Results of fallible code *)

Inductive Exception : Type :=
| TypeError   (* a property of [undefined] was read or written *)
| Untyped.    (* a value outside [Token | null] or outside the numbers of
                 the model ([undefined] in a cell, a hole, [NaN]) arose *)

Inductive result (A : Type) : Type :=
| Ok (a : A)
| Throw (e : Exception).
Arguments Ok {A} a.
Arguments Throw {A} e.

Definition bind {A B : Type} (m : result A) (f : A -> result B) : result B :=
  match m with
  | Ok a => f a
  | Throw e => Throw e
  end.

Notation "x <- m ;; k" := (bind m (fun x => k))
  (at level 61, m at next level, right associativity).
Notation "' p <- m ;; k" := (bind m (fun p => k))
  (at level 61, p pattern, m at next level, right associativity).

(** [for (x of xs) s = body(x, s)], stopping at the first exception. *)
Fixpoint forM {X S : Type} (xs : list X) (body : X -> S -> result S) (s : S)
  : result S :=
  match xs with
  | [] => Ok s
  | x :: rest => s' <- body x s ;; forM rest body s'
  end.

(** [for (let i = hi - 1; i >= 0; i--)]: the indices [hi-1, ..., 0]. *)
Definition downFrom (hi : nat) : list nat := rev (seq 0 hi).

(* ================================================================== *)
(** ** Data model *)

Inductive TokenType : Type := ETH | BTC | USDC | MATIC | BASE | WETH.

Definition TokenType_eqb (a b : TokenType) : bool :=
  match a, b with
  | ETH, ETH | BTC, BTC | USDC, USDC | MATIC, MATIC | BASE, BASE | WETH, WETH => true
  | _, _ => false
  end.

Record Token : Type := mkToken {
  id : string;
  type : TokenType;
  row : nat;
  col : nat;
  isMatched : bool;
  isFalling : bool
}.

Definition Cell : Type := option Token.
Definition Grid : Type := list (list Cell).

Inductive GameStatus : Type := menu | playing | levelComplete | gameOver.

Definition GameStatus_eqb (a b : GameStatus) : bool :=
  match a, b with
  | menu, menu | playing, playing | levelComplete, levelComplete
  | gameOver, gameOver => true
  | _, _ => false
  end.

Record CascadeState : Type := mkState {
  grid : Grid;
  score : Z;
  moves : Z;
  level : Z;
  targetScore : Z;
  gameStatus : GameStatus;
  cascadeCombo : Z;
  selectedToken : option (nat * nat);
  isProcessing : bool
}.

Definition GRID_SIZE : nat := 8.
Definition TOKEN_TYPES : list TokenType := [ETH; BTC; USDC; MATIC; BASE; WETH].
Definition INITIAL_MOVES : Z := 20.

(* ================================================================== *)
(** ** Arrays *)

(** [grid[r][c]]: [Throw TypeError] when [grid[r]] is [undefined],
    [Ok None] when the cell is [undefined], [Ok (Some cell)] otherwise. *)
Definition cellAt (g : Grid) (r c : nat) : result (option Cell) :=
  match nth_error g r with
  | None => Throw TypeError
  | Some line => Ok (nth_error line c)
  end.

(** A JavaScript truth test of a cell read: [undefined] and [null] are falsy. *)
Definition truthy (v : option Cell) : option Token :=
  match v with
  | Some (Some t) => Some t
  | _ => None
  end.

Fixpoint replaceNth {A : Type} (l : list A) (n : nat) (v : A) : list A :=
  match l, n with
  | [], _ => []
  | _ :: rest, 0 => v :: rest
  | x :: rest, S n' => x :: replaceNth rest n' v
  end.

(** [grid[r][c] = v] on a copy. A write to a missing row throws; a write
    past the end of a row would extend the array, possibly with holes. *)
Definition setCell (g : Grid) (r c : nat) (v : Cell) : result Grid :=
  match nth_error g r with
  | None => Throw TypeError
  | Some line =>
      if c <? length line then Ok (replaceNth g r (replaceNth line c v))
      else Throw Untyped
  end.

(** The same with a JavaScript number as row index: a negative index names
    no element. *)
Definition setCellZ (g : Grid) (r : Z) (c : nat) (v : Cell) : result Grid :=
  if (r <? 0)%Z then Throw TypeError else setCell g (Z.to_nat r) c v.

(* ================================================================== *)
(** ** Keys of the [matched] set *)

(** [`${n}`] for a non-negative integer. *)
Definition showNat (n : nat) : string := NilEmpty.string_of_uint (Nat.to_uint n).

(** [`${r}-${c}`] *)
Definition key (r c : nat) : string :=
  (showNat r ++ "-" ++ showNat c)%string.

(** [Number(s)] for the strings that the fields of a key can be: a string
    of decimal digits is read as that number, the empty string as 0; [None]
    stands for every other string (their value, [NaN] for most, is no row
    or column of the model). *)
Definition Number (s : string) : option nat :=
  option_map Nat.of_uint (NilEmpty.uint_of_string s).

(** [s.split('-')] *)
Fixpoint split_dash (s : string) : list string :=
  match s with
  | EmptyString => [EmptyString]
  | String ch rest =>
      if Ascii.eqb ch "-"%char then EmptyString :: split_dash rest
      else match split_dash rest with
           | [] => [String ch EmptyString]
           | w :: ws => String ch w :: ws
           end
  end.

(** [const [row, col] = key.split('-').map(Number)] *)
Definition parseKey (k : string) : result (nat * nat) :=
  match map Number (split_dash k) with
  | Some r :: Some c :: _ => Ok (r, c)
  | _ => Throw Untyped
  end.

(** [Set.prototype.add] on an insertion-ordered set. *)
Definition setAdd (k : string) (s : list string) : list string :=
  if existsb (String.eqb k) s then s else s ++ [k].

(* ================================================================== *)
(** ** Match detection *)

(** The body shared by the two scans: read three cells, and when all three
    hold tokens of one kind add their keys. *)
Definition checkTriple (g : Grid) (p1 p2 p3 : nat * nat) (matched : list string)
  : result (list string) :=
  token1 <- cellAt g (fst p1) (snd p1) ;;
  token2 <- cellAt g (fst p2) (snd p2) ;;
  token3 <- cellAt g (fst p3) (snd p3) ;;
  match truthy token1, truthy token2, truthy token3 with
  | Some t1, Some t2, Some t3 =>
      if TokenType_eqb (type t1) (type t2) && TokenType_eqb (type t2) (type t3)
      then Ok (setAdd (key (fst p3) (snd p3))
                (setAdd (key (fst p2) (snd p2))
                  (setAdd (key (fst p1) (snd p1)) matched)))
      else Ok matched
  | _, _, _ => Ok matched
  end.

Definition scanHorizontal (g : Grid) (matched : list string) : result (list string) :=
  forM (seq 0 GRID_SIZE) (fun r matched =>
    forM (seq 0 (GRID_SIZE - 2)) (fun c matched =>
      checkTriple g (r, c) (r, c + 1) (r, c + 2) matched) matched) matched.

Definition scanVertical (g : Grid) (matched : list string) : result (list string) :=
  forM (seq 0 GRID_SIZE) (fun c matched =>
    forM (seq 0 (GRID_SIZE - 2)) (fun r matched =>
      checkTriple g (r, c) (r + 1, c) (r + 2, c) matched) matched) matched.

(** [matched.forEach(key => matches.push(parse key))] *)
Fixpoint collect (keys : list string) : result (list (nat * nat)) :=
  match keys with
  | [] => Ok []
  | k :: rest => p <- parseKey k ;; ps <- collect rest ;; Ok (p :: ps)
  end.

Definition findMatches (g : Grid) : result (list (nat * nat)) :=
  matched <- scanHorizontal g [] ;;
  matched <- scanVertical g matched ;;
  collect matched.

(* ================================================================== *)
(** ** The random source *)

(** What one token creation reads from the environment: the kind
    [TOKEN_TYPES[Math.floor(Math.random() * TOKEN_TYPES.length)]] (always one
    of the six, [Math.random()] being below 1) and the text
    [`${Date.now()}-${Math.random()}`] that ends its id. *)
Record Draw : Type := mkDraw {
  kindDrawn : TokenType;
  stamp : string
}.

(** The n-th token created reads [oracle n]. *)
Definition Oracle : Type := nat -> Draw.

Definition freshToken (oracle : Oracle) (n r c : nat) (falling : bool) : Token :=
  {| id := (key r c ++ "-" ++ stamp (oracle n))%string;
     type := kindDrawn (oracle n);
     row := r;
     col := c;
     isMatched := false;
     isFalling := falling |}.

(** [{ ...t, row: r, col: c }] *)
Definition moveTo (t : Token) (r c : nat) : Token :=
  {| id := id t; type := type t; row := r; col := c;
     isMatched := isMatched t; isFalling := isFalling t |}.

(* ================================================================== *)
(** ** Grid generation *)

Definition createInitialGrid (oracle : Oracle) (n : nat) : Grid * nat :=
  fold_left (fun (st : Grid * nat) r =>
      let '(g, n) := st in
      let '(line, n) :=
        fold_left (fun (st : list Cell * nat) c =>
            let '(line, n) := st in
            (line ++ [Some (freshToken oracle n r c false)], S n))
          (seq 0 GRID_SIZE) ([], n) in
      (g ++ [line], n))
    (seq 0 GRID_SIZE) ([], n).

(* ================================================================== *)
(** ** One resolution step *)

(** [matches.forEach(({ row, col }) => { newGrid[row][col] = null })] *)
Definition clearMatches (ms : list (nat * nat)) (g : Grid) : result Grid :=
  forM ms (fun p newGrid => setCell newGrid (fst p) (snd p) None) g.

(** The body of the gravity loop of column [c] at row [r]; the state is
    the grid and [emptyRow]. An [undefined] cell is not [null]: the source
    would spread it into an object that is no token. *)
Definition gravityStep (c r : nat) (st : Grid * Z) : result (Grid * Z) :=
  let '(newGrid, emptyRow) := st in
  v <- cellAt newGrid r c ;;
  match v with
  | None => Throw Untyped
  | Some None => Ok (newGrid, emptyRow)
  | Some (Some t) =>
      newGrid' <-
        (if (Z.of_nat r =? emptyRow)%Z then Ok newGrid
         else g1 <- setCellZ newGrid emptyRow c
                      (Some (moveTo t (Z.to_nat emptyRow) c)) ;;
              setCell g1 r c None) ;;
      Ok (newGrid', (emptyRow - 1)%Z)
  end.

(** The body of the refill loop of column [c] at row [r]; the state is the
    grid and the counter of the random source. *)
Definition refillStep (oracle : Oracle) (c r : nat) (st : Grid * nat)
  : result (Grid * nat) :=
  let '(newGrid, n) := st in
  g' <- setCell newGrid r c (Some (freshToken oracle n r c true)) ;;
  Ok (g', S n).

(** The body of [for (let col = 0; col < GRID_SIZE; col++)]. *)
Definition settleColumn (oracle : Oracle) (c : nat) (st : Grid * nat)
  : result (Grid * nat) :=
  let '(newGrid, n) := st in
  '(newGrid, emptyRow) <-
     forM (downFrom GRID_SIZE) (gravityStep c)
          (newGrid, (Z.of_nat GRID_SIZE - 1)%Z) ;;
  forM (downFrom (Z.to_nat (emptyRow + 1))) (refillStep oracle c) (newGrid, n).

(** [processCascade]: the new grid, [matchCount], and the counter of the
    random source after the step. *)
Definition processCascade (oracle : Oracle) (g : Grid) (n : nat)
  : result (Grid * nat * nat) :=
  matches <- findMatches g ;;
  if length matches =? 0 then Ok (g, 0, n)
  else
    newGrid <- clearMatches matches g ;;
    '(newGrid, n') <- forM (seq 0 GRID_SIZE) (settleColumn oracle) (newGrid, n) ;;
    Ok (newGrid, length matches, n').

(* ================================================================== *)
(** ** The cascade loop *)

(** [while (true) { ... }] of [processCascadingMatches]; [None] when the
    fuel runs out before the loop leaves. The result is the grid,
    [cascadeCombo], [totalScore] and the counter of the random source. *)
Fixpoint cascadeLoop (oracle : Oracle) (fuel : nat) (g : Grid)
    (combo totalScore : Z) (n : nat) : option (result (Grid * Z * Z * nat)) :=
  match fuel with
  | 0 => None
  | S fuel' =>
      match processCascade oracle g n with
      | Throw e => Some (Throw e)
      | Ok (newGrid, matchCount, n') =>
          if matchCount =? 0 then Some (Ok (g, combo, totalScore, n'))
          else
            let combo := (combo + 1)%Z in
            let comboMultiplier := combo in
            let scoreGain := (Z.of_nat matchCount * 10 * comboMultiplier)%Z in
            cascadeLoop oracle fuel' newGrid combo (totalScore + scoreGain)%Z n'
      end
  end.

(** The state update that ends [processCascadingMatches]. *)
Definition finishCascade (g : Grid) (combo totalScore : Z) (prev : CascadeState)
  : CascadeState :=
  let newScore := (score prev + totalScore)%Z in
  let complete :=
    (targetScore prev <=? newScore)%Z && GameStatus_eqb (gameStatus prev) playing in
  let newStatus := if complete then levelComplete else gameStatus prev in
  let newLevel := if complete then (level prev + 1)%Z else level prev in
  let newTargetScore : Q :=
    if complete then (inject_Z (targetScore prev) * (3 # 2))%Q
    else inject_Z (targetScore prev) in
  let newMoves := if complete then INITIAL_MOVES else moves prev in
  {| grid := g;
     score := newScore;
     moves := newMoves;
     level := newLevel;
     targetScore := Qfloor newTargetScore;
     gameStatus := newStatus;
     cascadeCombo := if (0 <? totalScore)%Z then combo else 0%Z;
     selectedToken := selectedToken prev;
     isProcessing := false |}.

(** [processCascadingMatches(initialGrid)], its state update applied to the
    state [prev] current when the loop has left. *)
Definition processCascadingMatches (oracle : Oracle) (fuel : nat)
    (initialGrid : Grid) (n : nat) (prev : CascadeState)
  : option (result (CascadeState * nat)) :=
  match cascadeLoop oracle fuel initialGrid 0%Z 0%Z n with
  | None => None
  | Some (Throw e) => Some (Throw e)
  | Some (Ok (g, combo, totalScore, n')) =>
      Some (Ok (finishCascade g combo totalScore prev, n'))
  end.

(* ================================================================== *)
(** ** The click handler *)

(** The exchange of two tokens done inside the state update of a swap. *)
Definition swapTokens (g : Grid) (r c : nat) (sel : nat * nat) : result Grid :=
  temp <- cellAt g r c ;;
  other <- cellAt g (fst sel) (snd sel) ;;
  match temp, other with
  | Some temp, Some other =>
      g1 <- setCell g r c other ;;
      g2 <- setCell g1 (fst sel) (snd sel) temp ;;
      v <- cellAt g2 r c ;;
      g3 <- match truthy v with
            | Some t => setCell g2 r c (Some (moveTo t r c))
            | None => Ok g2
            end ;;
      v' <- cellAt g3 (fst sel) (snd sel) ;;
      match truthy v' with
      | Some t => setCell g3 (fst sel) (snd sel) (Some (moveTo t (fst sel) (snd sel)))
      | None => Ok g3
      end
  | _, _ => Throw Untyped
  end.

Definition isAdjacent (sel : nat * nat) (r c : nat) : bool :=
  let rowDiff := Z.abs (Z.of_nat (fst sel) - Z.of_nat r) in
  let colDiff := Z.abs (Z.of_nat (snd sel) - Z.of_nat c) in
  ((rowDiff =? 1)%Z && (colDiff =? 0)%Z) || ((rowDiff =? 0)%Z && (colDiff =? 1)%Z).

(** What a click leaves behind: the next state, and the grid handed to
    [processCascadingMatches] through [setTimeout] when a cascade starts. *)
Record ClickOutcome : Type := mkOutcome {
  nextState : CascadeState;
  cascadeOn : option Grid
}.

Definition withSelected (s : CascadeState) (sel : option (nat * nat)) : CascadeState :=
  {| grid := grid s; score := score s; moves := moves s; level := level s;
     targetScore := targetScore s; gameStatus := gameStatus s;
     cascadeCombo := cascadeCombo s; selectedToken := sel;
     isProcessing := isProcessing s |}.

(** [handleTokenClick(r, c)] in a render whose state was [cascadeState],
    its state update (when it makes one) applied to [prev]. *)
Definition handleTokenClick (cascadeState : CascadeState) (r c : nat)
    (prev : CascadeState) : result ClickOutcome :=
  if isProcessing cascadeState
     || negb (GameStatus_eqb (gameStatus cascadeState) playing)
  then Ok (mkOutcome prev None)
  else
    match selectedToken cascadeState with
    | None => Ok (mkOutcome (withSelected prev (Some (r, c))) None)
    | Some sel =>
        if isAdjacent sel r c then
          newGrid <- swapTokens (grid prev) r c sel ;;
          matches <- findMatches newGrid ;;
          if 0 <? length matches then
            let newMoves := (moves prev - 1)%Z in
            let newStatus :=
              if (newMoves <=? 0)%Z && (score prev <? targetScore prev)%Z
              then gameOver else gameStatus prev in
            Ok (mkOutcome
                  {| grid := newGrid; score := score prev; moves := newMoves;
                     level := level prev; targetScore := targetScore prev;
                     gameStatus := newStatus; cascadeCombo := cascadeCombo prev;
                     selectedToken := None; isProcessing := true |}
                  (Some newGrid))
          else Ok (mkOutcome (withSelected prev None) None)
        else Ok (mkOutcome (withSelected prev (Some (r, c))) None)
    end.

(** [startGame] and [nextLevel] *)
Definition startGame (oracle : Oracle) (n : nat) : CascadeState * nat :=
  let '(g, n') := createInitialGrid oracle n in
  ({| grid := g; score := 0; moves := INITIAL_MOVES; level := 1;
      targetScore := 1000; gameStatus := playing; cascadeCombo := 0;
      selectedToken := None; isProcessing := false |}, n').

Definition nextLevel (oracle : Oracle) (n : nat) (prev : CascadeState)
  : CascadeState * nat :=
  let '(g, n') := createInitialGrid oracle n in
  ({| grid := g; score := score prev; moves := INITIAL_MOVES; level := level prev;
      targetScore := targetScore prev; gameStatus := playing; cascadeCombo := 0;
      selectedToken := None; isProcessing := false |}, n').

(* ================================================================== *)
(** ** Vocabulary of the statements: grids *)

(** The cell at slot [(r, c)], a missing one read as empty. *)
Definition get (g : Grid) (r c : nat) : Cell :=
  match nth_error g r with
  | Some line => match nth_error line c with
                 | Some v => v
                 | None => None
                 end
  | None => None
  end.

Definition kindAt (g : Grid) (r c : nat) : option TokenType :=
  option_map type (get g r c).

(** An 8x8 grid. *)
Definition wfGrid (g : Grid) : Prop :=
  length g = GRID_SIZE /\ Forall (fun line => length line = GRID_SIZE) g.

(** The grid with slot [(r, c)] overwritten (a slot outside the grid: no
    change). *)
Definition put (g : Grid) (r c : nat) (v : Cell) : Grid :=
  match nth_error g r with
  | Some line => replaceNth g r (replaceNth line c v)
  | None => g
  end.

(** Slot [(r, c)] holds a token of kind [k]. *)
Definition holdsKind (g : Grid) (r c : nat) (k : TokenType) : Prop :=
  exists t, cellAt g r c = Ok (Some (Some t)) /\ type t = k.

(* ================================================================== *)
(** ** Vocabulary of match detection *)

(** [len >= 3] consecutive slots of row [r] from column [c0] on, all
    holding tokens of kind [k]. *)
Definition hRun (g : Grid) (r c0 len : nat) (k : TokenType) : Prop :=
  3 <= len /\ c0 + len <= GRID_SIZE /\ r < GRID_SIZE /\
  forall j, j < len -> kindAt g r (c0 + j) = Some k.

Definition vRun (g : Grid) (c r0 len : nat) (k : TokenType) : Prop :=
  3 <= len /\ r0 + len <= GRID_SIZE /\ c < GRID_SIZE /\
  forall j, j < len -> kindAt g (r0 + j) c = Some k.

(** Slot [(r, c)] lies in a horizontal or a vertical run. *)
Definition inRun (g : Grid) (r c : nat) : Prop :=
  (exists c0 len k, hRun g r c0 len k /\ c0 <= c < c0 + len) \/
  (exists r0 len k, vRun g c r0 len k /\ r0 <= r < r0 + len).

(** Three cells hold tokens of one kind: the test of [findMatches]. *)
Definition tripleHit (g : Grid) (p1 p2 p3 : nat * nat) : bool :=
  match get g (fst p1) (snd p1), get g (fst p2) (snd p2), get g (fst p3) (snd p3) with
  | Some t1, Some t2, Some t3 =>
      TokenType_eqb (type t1) (type t2) && TokenType_eqb (type t2) (type t3)
  | _, _, _ => false
  end.

(** Slot [(r, c)] is one of three consecutive slots of its row, or of its
    column, that hold tokens of one kind. *)
Definition inTriple (g : Grid) (r c : nat) : Prop :=
  (exists c0, c0 < GRID_SIZE - 2 /\ c0 <= c <= c0 + 2 /\ r < GRID_SIZE /\
     tripleHit g (r, c0) (r, c0 + 1) (r, c0 + 2) = true) \/
  (exists r0, r0 < GRID_SIZE - 2 /\ r0 <= r <= r0 + 2 /\ c < GRID_SIZE /\
     tripleHit g (r0, c) (r0 + 1, c) (r0 + 2, c) = true).

Definition addTriple (g : Grid) (p1 p2 p3 : nat * nat) (matched : list string)
  : list string :=
  if tripleHit g p1 p2 p3
  then setAdd (key (fst p3) (snd p3))
         (setAdd (key (fst p2) (snd p2)) (setAdd (key (fst p1) (snd p1)) matched))
  else matched.

(** The two scans as pure folds. *)
Definition hKeys (g : Grid) (matched : list string) : list string :=
  fold_left (fun m r =>
    fold_left (fun m' c => addTriple g (r, c) (r, c + 1) (r, c + 2) m')
              (seq 0 (GRID_SIZE - 2)) m) (seq 0 GRID_SIZE) matched.

Definition vKeys (g : Grid) (matched : list string) : list string :=
  fold_left (fun m c =>
    fold_left (fun m' r => addTriple g (r, c) (r + 1, c) (r + 2, c) m')
              (seq 0 (GRID_SIZE - 2)) m) (seq 0 GRID_SIZE) matched.

(** The keys of in-range slots. *)
Definition slotKey (k : string) : Prop :=
  exists r c, r < GRID_SIZE /\ c < GRID_SIZE /\ k = key r c.

(* ================================================================== *)
(** ** Vocabulary of the resolution step *)

Definition inb (p : nat * nat) (ms : list (nat * nat)) : bool :=
  existsb (fun q => (fst q =? fst p) && (snd q =? snd p)) ms.

(** The grid with the slots of [ms] emptied. *)
Definition cleared (ms : list (nat * nat)) (g : Grid) : Grid :=
  fold_left (fun g' p => put g' (fst p) (snd p) None) ms g.

(** The tokens of the rows 0 to [k - 1] of a column, read from row [k - 1]
    up to row 0, each with the row it is in. *)
Fixpoint tokensUp (column : nat -> Cell) (k : nat) : list (nat * Token) :=
  match k with
  | 0 => []
  | S k' =>
      match column k' with
      | Some t => (k', t) :: tokensUp column k'
      | None => tokensUp column k'
      end
  end.

(** The tokens of column [c] that the clearing of [ms] leaves, bottom first. *)
Definition survivors (g : Grid) (ms : list (nat * nat)) (c : nat)
  : list (nat * Token) :=
  tokensUp (fun r => if inb (r, c) ms then None else get g r c) GRID_SIZE.

(** The token [t] of row [r] once it sits at [slot] of column [c]: rewritten
    with its new position if it had to move, as it was if not. *)
Definition place (c r : nat) (t : Token) (slot : nat) : Token :=
  if r =? slot then t else moveTo t slot c.

(** Column [c] of [g'] is what gravity and refill make of the tokens [ts]
    (bottom first, each with its former row): the j-th of them sits in the
    j-th slot from the bottom, and the slots above hold tokens newly drawn
    from the random source, top slot last. *)
Definition settledFrom (oracle : Oracle) (ts : list (nat * Token)) (g' : Grid)
    (c : nat) : Prop :=
  exists n0,
    (forall r, r < GRID_SIZE - length ts ->
       get g' r c
       = Some (freshToken oracle (n0 + (GRID_SIZE - 1 - length ts - r)) r c true)) /\
    (forall j r t, nth_error ts j = Some (r, t) ->
       get g' (GRID_SIZE - 1 - j) c = Some (place c r t (GRID_SIZE - 1 - j))).

(* ================================================================== *)
(** ** Vocabulary of the position invariant *)

(** The token of slot [(r, c)], if any, stores that position. *)
Definition okAt (g : Grid) (r c : nat) : Prop :=
  forall t, get g r c = Some t -> row t = r /\ col t = c.

Definition positionsOK (g : Grid) : Prop := forall r c, okAt g r c.

Definition positionsOKb (g : Grid) : bool :=
  forallb (fun r =>
    forallb (fun c =>
      match get g r c with
      | Some t => (row t =? r) && (col t =? c)
      | None => true
      end) (seq 0 GRID_SIZE)) (seq 0 GRID_SIZE).

(** [if (newGrid[r][c]) newGrid[r][c] = { ...newGrid[r][c], row: r, col: c }] *)
Definition restamp (g : Grid) (r c : nat) : Grid :=
  match get g r c with
  | Some t => put g r c (Some (moveTo t r c))
  | None => g
  end.

(** The grids that the operations of the game produce: the grid of
    [createInitialGrid], the grid of a swap made on one of them (whether the
    click handler then keeps it or not), and the grid that a resolution step
    returns on one of them. *)
Inductive producedGrid (oracle : Oracle) : Grid -> Prop :=
| produced_initial (n : nat) :
    producedGrid oracle (fst (createInitialGrid oracle n))
| produced_swap (g g' : Grid) (r c : nat) (sel : nat * nat) :
    producedGrid oracle g ->
    swapTokens g r c sel = Ok g' ->
    producedGrid oracle g'
| produced_step (g g' : Grid) (n k n' : nat) :
    producedGrid oracle g ->
    processCascade oracle g n = Ok (g', k, n') ->
    producedGrid oracle g'.

(* ================================================================== *)
(** ** Vocabulary of the cascade loop *)

(** A cascade sequence: from grid [g] and counter [n] of the random source
    the successive resolution steps clear [c1, ..., cn] cells, all counts
    positive, and the next step clears none; [g'] is the grid the last
    clearing step has left and [n'] the counter at the end. *)
Inductive cascadeRun (oracle : Oracle)
  : Grid -> nat -> list nat -> Grid -> nat -> Prop :=
| run_done (g g0 : Grid) (n n' : nat) :
    processCascade oracle g n = Ok (g0, 0, n') ->
    cascadeRun oracle g n [] g n'
| run_step (g g1 g' : Grid) (n k n1 n' : nat) (ks : list nat) :
    processCascade oracle g n = Ok (g1, S k, n1) ->
    cascadeRun oracle g1 n1 ks g' n' ->
    cascadeRun oracle g n (S k :: ks) g' n'.

(** [c_i * 10 * i + c_(i+1) * 10 * (i + 1) + ...] for the counts [cs], the
    first of which has index [i]. *)
Fixpoint scoreSum (i : Z) (cs : list nat) : Z :=
  match cs with
  | [] => 0
  | c :: rest => Z.of_nat c * 10 * i + scoreSum (i + 1) rest
  end.

(** An 8x8 grid all of whose slots hold tokens of kind [k]. *)
Definition uniformGrid (k : TokenType) (g : Grid) : Prop :=
  wfGrid g /\
  forall r c, r < GRID_SIZE -> c < GRID_SIZE -> kindAt g r c = Some k.

(* ================================================================== *)
(** ** Sample boards and random sources *)

Definition plainToken (k : TokenType) (r c : nat) : Token :=
  mkToken (key r c) k r c false false.

(** The 8x8 board whose slot [(r, c)] holds a token of kind [f r c], or
    nothing. *)
Definition boardOf (f : nat -> nat -> option TokenType) : Grid :=
  map (fun r => map (fun c => option_map (fun k => plainToken k r c) (f r c))
                    (seq 0 GRID_SIZE)) (seq 0 GRID_SIZE).

(** A background without any run. *)
Definition checker (r c : nat) : TokenType :=
  if Nat.even (r + c) then BTC else USDC.

(** A triple of [ETH] at row 3, columns 2 to 4. *)
Definition tripleBoard : Grid :=
  boardOf (fun r c =>
    if (r =? 3) && (2 <=? c) && (c <=? 4) then Some ETH else Some (checker r c)).

(** The same with the middle slot of the triple empty. *)
Definition gapBoard : Grid :=
  boardOf (fun r c =>
    if (r =? 3) && (c =? 3) then None
    else if (r =? 3) && (2 <=? c) && (c <=? 4) then Some ETH
    else Some (checker r c)).

(** [ETH] all along the diagonal, and nowhere else. *)
Definition diagonalBoard : Grid :=
  boardOf (fun r c => if r =? c then Some ETH else Some (checker r c)).

(** The checkered board with the bottom slot of column 0 empty. *)
Definition holeBoard : Grid :=
  boardOf (fun r c => if (r =? 7) && (c =? 0) then None else Some (checker r c)).

(** [tripleBoard] with a token at the bottom of column 0 that stores row 0. *)
Definition staleBoard : Grid :=
  put tripleBoard 7 0 (Some (mkToken "7-0" USDC 0 0 false false)).

(** Two [ETH] at row 3, columns 2 and 3, a third one at [(4, 4)] below the
    [WETH] of [(3, 4)]: exchanging the last two completes a triple. *)
Definition swapBoard : Grid :=
  boardOf (fun r c =>
    if ((r =? 3) && ((c =? 2) || (c =? 3))) || ((r =? 4) && (c =? 4)) then Some ETH
    else if (r =? 3) && (c =? 4) then Some WETH
    else Some (checker r c)).

(** A triple of [ETH] at row 4, columns 0 to 2, that separates two pairs of
    [MATIC] of column 0: clearing it lets the pairs meet. *)
Definition comboBoard : Grid :=
  boardOf (fun r c =>
    if (r =? 4) && (c <=? 2) then Some ETH
    else if (c =? 0) && ((r =? 2) || (r =? 3) || (r =? 5) || (r =? 6)) then Some MATIC
    else Some (checker r c)).

(** The random source that alternates [BASE] and [WETH]. *)
Definition alternating : Oracle :=
  fun n => mkDraw (if Nat.even n then BASE else WETH) "t".

(** A random source that only draws [ETH], and the board of the tokens it
    makes. *)
Definition onlyETH : Oracle := fun _ => mkDraw ETH "t".

Definition ethBoard : Grid :=
  map (fun r => map (fun c => Some (freshToken onlyETH 0 r c true))
                    (seq 0 GRID_SIZE)) (seq 0 GRID_SIZE).

(** A state of a game in progress. *)
Definition inPlay (g : Grid) (sc mv : Z) (sel : option (nat * nat)) : CascadeState :=
  {| grid := g; score := sc; moves := mv; level := 1; targetScore := 1000;
     gameStatus := playing; cascadeCombo := 0; selectedToken := sel;
     isProcessing := false |}.

(* ================================================================== *)
(** ** Vocabulary of the further properties *)

(** No character of the string is a dash. *)
Fixpoint noDash (s : string) : bool :=
  match s with
  | EmptyString => true
  | String ch rest => negb (Ascii.eqb ch "-"%char) && noDash rest
  end.

(** Every slot of the 8x8 window holds a token. *)
Definition fullGrid (g : Grid) : Prop :=
  forall r c, r < GRID_SIZE -> c < GRID_SIZE -> get g r c <> None.

(** All the slots of the 8x8 window, row by row. *)
Definition allSlots : list (nat * nat) :=
  list_prod (seq 0 GRID_SIZE) (seq 0 GRID_SIZE).

(** An 8x8 grid without empty slot whose tokens store their slots: the
    grid of a game outside a resolution step. *)
Definition goodGrid (g : Grid) : Prop :=
  wfGrid g /\ fullGrid g /\ positionsOK g.

(** The state the component starts with. *)
Definition initialState : CascadeState :=
  {| grid := []; score := 0; moves := INITIAL_MOVES; level := 1;
     targetScore := 1000; gameStatus := menu; cascadeCombo := 0;
     selectedToken := None; isProcessing := false |}.

(** The cascades that a click has started through [setTimeout] and that
    have not yet made their state update, each by the grid it was started
    on. *)
Definition Pending : Type := list Grid.

Definition started (out : ClickOutcome) : Pending :=
  match cascadeOn out with
  | Some g => [g]
  | None => []
  end.

(** What can happen to the component, by the handlers that the screen
    offers in a state and the timers in flight:
    - the menu screen and the game-over screen offer [startGame];
    - the level-complete screen offers [nextLevel];
    - the game screen has one button for each token of the grid, which
      calls [handleTokenClick] with the row and column of its slot, in the
      render of the current state;
    - a cascade in flight comes to its end and updates the state. *)
Inductive appStep (oracle : Oracle)
  : CascadeState * Pending -> CascadeState * Pending -> Prop :=
| app_start (s : CascadeState) (p : Pending) (n : nat) :
    gameStatus s = menu \/ gameStatus s = gameOver ->
    appStep oracle (s, p) (fst (startGame oracle n), p)
| app_next (s : CascadeState) (p : Pending) (n : nat) :
    gameStatus s = levelComplete ->
    appStep oracle (s, p) (fst (nextLevel oracle n s), p)
| app_click (s : CascadeState) (p : Pending) (r c : nat) (t : Token)
    (out : ClickOutcome) :
    gameStatus s = playing ->
    cellAt (grid s) r c = Ok (Some (Some t)) ->
    handleTokenClick s r c s = Ok out ->
    appStep oracle (s, p) (nextState out, p ++ started out)
| app_cascade (s st : CascadeState) (p1 p2 : Pending) (g : Grid)
    (fuel n n' : nat) :
    processCascadingMatches oracle fuel g n s = Some (Ok (st, n')) ->
    appStep oracle (s, p1 ++ g :: p2) (st, p1 ++ p2).

(** The states the component can come to. *)
Inductive appReach (oracle : Oracle) : CascadeState * Pending -> Prop :=
| reach_initial : appReach oracle (initialState, [])
| reach_step (a b : CascadeState * Pending) :
    appReach oracle a -> appStep oracle a b -> appReach oracle b.

(** What holds of every such state. *)
Definition appInvariant (s : CascadeState) (p : Pending) : Prop :=
  (gameStatus s = menu \/ goodGrid (grid s)) /\
  (forall sel, selectedToken s = Some sel ->
     fst sel < GRID_SIZE /\ snd sel < GRID_SIZE) /\
  Forall goodGrid p /\
  (0 <= score s)%Z /\ (1 <= level s)%Z /\ (1000 <= targetScore s)%Z /\
  (moves s <= INITIAL_MOVES)%Z.

(* ================================================================== *)
(** ** Loops and arrays *)

Lemma forM_pure {X S : Type} (f : X -> S -> S) (body : X -> S -> result S) :
  forall (xs : list X) (s : S),
    (forall x s', In x xs -> body x s' = Ok (f x s')) ->
    forM xs body s = Ok (fold_left (fun s' x => f x s') xs s).
Proof.
  induction xs as [|x xs IH]; intros s Hb; simpl.
  - reflexivity.
  - rewrite Hb by (left; reflexivity). simpl.
    apply IH. intros y s' Hy. apply Hb. right; exact Hy.
Qed.

Lemma forM_app {X S : Type} (body : X -> S -> result S) :
  forall (xs ys : list X) (s : S),
    forM (xs ++ ys) body s = (s' <- forM xs body s ;; forM ys body s').
Proof.
  induction xs as [|x xs IH]; intros ys s; simpl.
  - reflexivity.
  - destruct (body x s) as [s1|e]; simpl; [apply IH | reflexivity].
Qed.

Lemma TokenType_eqb_eq (a b : TokenType) : TokenType_eqb a b = true <-> a = b.
Proof. destruct a, b; simpl; split; intro H; try reflexivity; discriminate. Qed.

Lemma cellAt_truthy (g : Grid) (r c : nat) :
  r < length g -> exists v, cellAt g r c = Ok v /\ truthy v = get g r c.
Proof.
  intro Hr. unfold cellAt, get.
  destruct (nth_error g r) as [line|] eqn:E.
  - exists (nth_error line c). split; [reflexivity|].
    destruct (nth_error line c) as [[t|]|]; reflexivity.
  - apply nth_error_None in E. lia.
Qed.

Lemma checkTriple_pure (g : Grid) (p1 p2 p3 : nat * nat) (m : list string) :
  fst p1 < length g -> fst p2 < length g -> fst p3 < length g ->
  checkTriple g p1 p2 p3 m = Ok (addTriple g p1 p2 p3 m).
Proof.
  intros H1 H2 H3. unfold checkTriple, addTriple, tripleHit.
  destruct (cellAt_truthy g _ (snd p1) H1) as (v1 & -> & <-).
  destruct (cellAt_truthy g _ (snd p2) H2) as (v2 & -> & <-).
  destruct (cellAt_truthy g _ (snd p3) H3) as (v3 & -> & <-).
  simpl.
  destruct (truthy v1), (truthy v2), (truthy v3); try reflexivity.
  destruct (_ && _); reflexivity.
Qed.

Lemma scanHorizontal_pure (g : Grid) (m : list string) :
  GRID_SIZE <= length g -> scanHorizontal g m = Ok (hKeys g m).
Proof.
  intro Hg. unfold scanHorizontal, hKeys.
  apply forM_pure with
    (f := fun r m => fold_left (fun m' c => addTriple g (r, c) (r, c + 1) (r, c + 2) m')
                               (seq 0 (GRID_SIZE - 2)) m).
  intros r m' Hr. apply in_seq in Hr.
  apply forM_pure with
    (f := fun c m' => addTriple g (r, c) (r, c + 1) (r, c + 2) m').
  intros c m'' _. apply checkTriple_pure; simpl; lia.
Qed.

Lemma scanVertical_pure (g : Grid) (m : list string) :
  GRID_SIZE <= length g -> scanVertical g m = Ok (vKeys g m).
Proof.
  intro Hg. unfold scanVertical, vKeys.
  apply forM_pure with
    (f := fun c m => fold_left (fun m' r => addTriple g (r, c) (r + 1, c) (r + 2, c) m')
                               (seq 0 (GRID_SIZE - 2)) m).
  intros c m' Hc.
  apply forM_pure with
    (f := fun r m' => addTriple g (r, c) (r + 1, c) (r + 2, c) m').
  intros r m'' Hr. apply in_seq in Hr. unfold GRID_SIZE in *.
  apply checkTriple_pure; simpl; lia.
Qed.

(* ================================================================== *)
(** ** The [matched] set *)

Lemma in_setAdd (k k' : string) (s : list string) :
  In k' (setAdd k s) <-> k' = k \/ In k' s.
Proof.
  unfold setAdd. destruct (existsb (String.eqb k) s) eqn:E.
  - split; [intro H; right; exact H|].
    intros [->|H]; [|exact H].
    apply existsb_exists in E. destruct E as (x & Hx & Heq).
    apply String.eqb_eq in Heq. subst x. exact Hx.
  - rewrite in_app_iff. simpl. intuition.
Qed.

Lemma NoDup_setAdd (k : string) (s : list string) :
  NoDup s -> NoDup (setAdd k s).
Proof.
  intro Hs. unfold setAdd. destruct (existsb (String.eqb k) s) eqn:E.
  - exact Hs.
  - apply NoDup_app; [exact Hs | repeat constructor; intros [] |].
    intros x Hx [E2|[]]. subst x.
    assert (existsb (String.eqb k) s = true) as E'.
    { apply existsb_exists. exists k. split; [exact Hx | apply String.eqb_refl]. }
    congruence.
Qed.

Lemma in_addTriple (g : Grid) (p1 p2 p3 : nat * nat) (m : list string) (k : string) :
  In k (addTriple g p1 p2 p3 m) <->
  In k m \/ (tripleHit g p1 p2 p3 = true /\
             (k = key (fst p1) (snd p1) \/ k = key (fst p2) (snd p2) \/
              k = key (fst p3) (snd p3))).
Proof.
  unfold addTriple. destruct (tripleHit g p1 p2 p3).
  - rewrite !in_setAdd. split.
    + intros [H|[H|[H|H]]]; auto 6.
    + intros [H|(_ & [H|[H|H]])]; auto.
  - split; [intro H; left; exact H|]. intros [H|(H & _)]; [exact H | discriminate].
Qed.

Lemma NoDup_addTriple (g : Grid) (p1 p2 p3 : nat * nat) (m : list string) :
  NoDup m -> NoDup (addTriple g p1 p2 p3 m).
Proof.
  intro H. unfold addTriple. destruct (tripleHit g p1 p2 p3); [|exact H].
  now repeat apply NoDup_setAdd.
Qed.

(** Membership in the result of a loop whose body only adds elements. *)
Lemma in_fold_adds {X K : Type} (F : X -> list K -> list K) (Q : X -> K -> Prop) :
  (forall x s k, In k (F x s) <-> In k s \/ Q x k) ->
  forall (xs : list X) (s : list K) (k : K),
    In k (fold_left (fun s' x => F x s') xs s) <->
    In k s \/ exists x, In x xs /\ Q x k.
Proof.
  intros HF. induction xs as [|x xs IH]; intros s k; simpl.
  - split; [intro H; left; exact H|]. intros [H|(x & [] & _)]. exact H.
  - rewrite IH, HF. split.
    + intros [[H|H]|(y & Hy & Hq)].
      * left; exact H.
      * right. exists x. split; [left; reflexivity | exact H].
      * right. exists y. split; [right; exact Hy | exact Hq].
    + intros [H|(y & [<-|Hy] & Hq)].
      * left; left; exact H.
      * left; right; exact Hq.
      * right. exists y. split; assumption.
Qed.

Lemma NoDup_fold_adds {X K : Type} (F : X -> list K -> list K) :
  (forall x s, NoDup s -> NoDup (F x s)) ->
  forall (xs : list X) (s : list K),
    NoDup s -> NoDup (fold_left (fun s' x => F x s') xs s).
Proof.
  intros HF. induction xs as [|x xs IH]; intros s Hs; simpl.
  - exact Hs.
  - apply IH, HF, Hs.
Qed.

Lemma in_hKeys (g : Grid) (m : list string) (k : string) :
  In k (hKeys g m) <->
  In k m \/ exists r c, r < GRID_SIZE /\ c < GRID_SIZE - 2 /\
    tripleHit g (r, c) (r, c + 1) (r, c + 2) = true /\
    (k = key r c \/ k = key r (c + 1) \/ k = key r (c + 2)).
Proof.
  unfold hKeys.
  rewrite (in_fold_adds
    (fun r m => fold_left (fun m' c => addTriple g (r, c) (r, c + 1) (r, c + 2) m')
                          (seq 0 (GRID_SIZE - 2)) m)
    (fun r k => exists c, c < GRID_SIZE - 2 /\
       tripleHit g (r, c) (r, c + 1) (r, c + 2) = true /\
       (k = key r c \/ k = key r (c + 1) \/ k = key r (c + 2)))).
  - split.
    + intros [H|(r & Hr & c & Hc & H)]; [left; exact H | right].
      apply in_seq in Hr. exists r, c. repeat split; try lia; apply H.
    + intros [H|(r & c & Hr & Hc & H)]; [left; exact H | right].
      exists r. split; [apply in_seq; lia|].
      exists c. split; [exact Hc | exact H].
  - intros r s k0.
    rewrite (in_fold_adds
      (fun c m' => addTriple g (r, c) (r, c + 1) (r, c + 2) m')
      (fun c k => tripleHit g (r, c) (r, c + 1) (r, c + 2) = true /\
         (k = key r c \/ k = key r (c + 1) \/ k = key r (c + 2)))).
    + split.
      * intros [H|(c & Hc & H)]; [left; exact H | right; exists c].
        apply in_seq in Hc. split; [lia | exact H].
      * intros [H|(c & Hc & H)]; [left; exact H | right; exists c].
        split; [apply in_seq; lia | exact H].
    + intros c s' k1. apply in_addTriple.
Qed.

Lemma in_vKeys (g : Grid) (m : list string) (k : string) :
  In k (vKeys g m) <->
  In k m \/ exists r c, r < GRID_SIZE - 2 /\ c < GRID_SIZE /\
    tripleHit g (r, c) (r + 1, c) (r + 2, c) = true /\
    (k = key r c \/ k = key (r + 1) c \/ k = key (r + 2) c).
Proof.
  unfold vKeys.
  rewrite (in_fold_adds
    (fun c m => fold_left (fun m' r => addTriple g (r, c) (r + 1, c) (r + 2, c) m')
                          (seq 0 (GRID_SIZE - 2)) m)
    (fun c k => exists r, r < GRID_SIZE - 2 /\
       tripleHit g (r, c) (r + 1, c) (r + 2, c) = true /\
       (k = key r c \/ k = key (r + 1) c \/ k = key (r + 2) c))).
  - split.
    + intros [H|(c & Hc & r & Hr & H)]; [left; exact H | right].
      apply in_seq in Hc. exists r, c. repeat split; try lia; apply H.
    + intros [H|(r & c & Hr & Hc & H)]; [left; exact H | right].
      exists c. split; [apply in_seq; lia|].
      exists r. split; [exact Hr | exact H].
  - intros c s k0.
    rewrite (in_fold_adds
      (fun r m' => addTriple g (r, c) (r + 1, c) (r + 2, c) m')
      (fun r k => tripleHit g (r, c) (r + 1, c) (r + 2, c) = true /\
         (k = key r c \/ k = key (r + 1) c \/ k = key (r + 2) c))).
    + split.
      * intros [H|(r & Hr & H)]; [left; exact H | right; exists r].
        apply in_seq in Hr. split; [lia | exact H].
      * intros [H|(r & Hr & H)]; [left; exact H | right; exists r].
        split; [apply in_seq; lia | exact H].
    + intros r s' k1. apply in_addTriple.
Qed.

Lemma NoDup_hKeys (g : Grid) (m : list string) : NoDup m -> NoDup (hKeys g m).
Proof.
  unfold hKeys. apply NoDup_fold_adds with
    (F := fun r m => fold_left (fun m' c => addTriple g (r, c) (r, c + 1) (r, c + 2) m')
                               (seq 0 (GRID_SIZE - 2)) m).
  intros r s. apply NoDup_fold_adds with
    (F := fun c m' => addTriple g (r, c) (r, c + 1) (r, c + 2) m').
  intros c s'. apply NoDup_addTriple.
Qed.

Lemma NoDup_vKeys (g : Grid) (m : list string) : NoDup m -> NoDup (vKeys g m).
Proof.
  unfold vKeys. apply NoDup_fold_adds with
    (F := fun c m => fold_left (fun m' r => addTriple g (r, c) (r + 1, c) (r + 2, c) m')
                               (seq 0 (GRID_SIZE - 2)) m).
  intros c s. apply NoDup_fold_adds with
    (F := fun r m' => addTriple g (r, c) (r + 1, c) (r + 2, c) m').
  intros r s'. apply NoDup_addTriple.
Qed.

(* ================================================================== *)
(** ** Keys and coordinates *)

Lemma parseKey_key (r c : nat) :
  r < GRID_SIZE -> c < GRID_SIZE -> parseKey (key r c) = Ok (r, c).
Proof.
  unfold GRID_SIZE. intros Hr Hc.
  do 8 (destruct r as [|r]; [do 8 (destruct c as [|c]; [reflexivity|]); lia|]).
  lia.
Qed.

Lemma collect_slotKeys (ks : list string) :
  Forall slotKey ks ->
  exists ps, collect ks = Ok ps /\
             ks = map (fun p => key (fst p) (snd p)) ps /\
             Forall (fun p => fst p < GRID_SIZE /\ snd p < GRID_SIZE) ps.
Proof.
  induction 1 as [|k ks (r & c & Hr & Hc & ->) _ (ps & E & Hks & Hps)].
  - exists []. repeat split. constructor.
  - exists ((r, c) :: ps). simpl. rewrite parseKey_key, E by assumption. simpl.
    repeat split.
    + now rewrite Hks at 1.
    + constructor; [simpl; split; assumption | exact Hps].
Qed.

Lemma key_inj (r c r' c' : nat) :
  r < GRID_SIZE -> c < GRID_SIZE -> r' < GRID_SIZE -> c' < GRID_SIZE ->
  key r c = key r' c' -> (r, c) = (r', c').
Proof.
  intros Hr Hc Hr' Hc' E.
  assert (parseKey (key r c) = parseKey (key r' c')) as P by now rewrite E.
  rewrite !parseKey_key in P by assumption. now inversion P.
Qed.

(* ================================================================== *)
(** ** What [findMatches] returns *)

Lemma in_matched (g : Grid) (k : string) :
  In k (vKeys g (hKeys g [])) <->
  exists r c, r < GRID_SIZE /\ c < GRID_SIZE /\ k = key r c /\ inTriple g r c.
Proof.
  rewrite in_vKeys, in_hKeys. unfold inTriple, GRID_SIZE. simpl. split.
  - intros [[[]|(r & c & Hr & Hc & Hit & Hk)]|(r & c & Hr & Hc & Hit & Hk)].
    + destruct Hk as [->|[->| ->]];
        [exists r, c | exists r, (c + 1) | exists r, (c + 2)];
        (repeat split; try lia; left; exists c; repeat split; try lia; exact Hit).
    + destruct Hk as [->|[->| ->]];
        [exists r, c | exists (r + 1), c | exists (r + 2), c];
        (repeat split; try lia; right; exists r; repeat split; try lia; exact Hit).
  - intros (r & c & Hr & Hc & -> & [(c0 & Hc0 & Hin & _ & Hit)|(r0 & Hr0 & Hin & _ & Hit)]).
    + left. right. exists r, c0. repeat split; try lia; try exact Hit.
      assert (c = c0 \/ c = c0 + 1 \/ c = c0 + 2) as [->|[->| ->]] by lia; auto.
    + right. exists r0, c. repeat split; try lia; try exact Hit.
      assert (r = r0 \/ r = r0 + 1 \/ r = r0 + 2) as [->|[->| ->]] by lia; auto.
Qed.

(** [findMatches] returns on every grid of at least eight rows, and its
    result lists, without repetition, the slots that lie in a triple. *)
Lemma findMatches_triples (g : Grid) :
  GRID_SIZE <= length g ->
  exists ms, findMatches g = Ok ms /\ NoDup ms /\
    Forall (fun p => fst p < GRID_SIZE /\ snd p < GRID_SIZE) ms /\
    forall r c, In (r, c) ms <-> inTriple g r c.
Proof.
  intro Hg. unfold findMatches.
  rewrite scanHorizontal_pure by exact Hg. simpl.
  rewrite scanVertical_pure by exact Hg. simpl.
  set (ks := vKeys g (hKeys g [])).
  assert (Forall slotKey ks) as Hks.
  { apply Forall_forall. intros k Hk. apply in_matched in Hk.
    destruct Hk as (r & c & Hr & Hc & -> & _). exists r, c. auto. }
  destruct (collect_slotKeys ks Hks) as (ps & E & Hmap & Hps).
  exists ps. split; [exact E|]. split; [|split; [exact Hps|]].
  - apply (NoDup_map_inv (fun p => key (fst p) (snd p))). rewrite <- Hmap.
    apply NoDup_vKeys, NoDup_hKeys. constructor.
  - intros r c. split.
    + intro Hin.
      assert (In (key r c) ks) as Hk.
      { rewrite Hmap. apply (in_map (fun p => key (fst p) (snd p)) ps (r, c) Hin). }
      apply in_matched in Hk. destruct Hk as (r' & c' & Hr' & Hc' & Ek & Ht).
      rewrite Forall_forall in Hps. destruct (Hps _ Hin) as [Hr Hc]. simpl in Hr, Hc.
      apply key_inj in Ek; try assumption. inversion Ek; subst. exact Ht.
    + intro Ht.
      assert (r < GRID_SIZE /\ c < GRID_SIZE) as [Hr Hc].
      { unfold inTriple, GRID_SIZE in *. destruct Ht as [(c0 & ? & ? & ? & _)|(r0 & ? & ? & ? & _)]; lia. }
      assert (In (key r c) ks) as Hk.
      { apply in_matched. exists r, c. auto. }
      rewrite Hmap in Hk. apply in_map_iff in Hk. destruct Hk as ([r' c'] & Ek & Hin).
      rewrite Forall_forall in Hps. destruct (Hps _ Hin) as [Hr' Hc']. simpl in *.
      apply key_inj in Ek; try assumption. inversion Ek; subst. exact Hin.
Qed.

Lemma tripleHit_kinds (g : Grid) (p1 p2 p3 : nat * nat) :
  tripleHit g p1 p2 p3 = true <->
  exists k, kindAt g (fst p1) (snd p1) = Some k /\
            kindAt g (fst p2) (snd p2) = Some k /\
            kindAt g (fst p3) (snd p3) = Some k.
Proof.
  unfold tripleHit, kindAt.
  destruct (get g (fst p1) (snd p1)) as [t1|], (get g (fst p2) (snd p2)) as [t2|],
           (get g (fst p3) (snd p3)) as [t3|]; simpl;
    try (split; [discriminate | intros (k & H1 & H2 & H3); discriminate]).
  rewrite andb_true_iff, !TokenType_eqb_eq. split.
  - intros [E1 E2]. exists (type t1). rewrite <- E2, <- E1. auto.
  - intros (k & H1 & H2 & H3). split; congruence.
Qed.

(** A slot lies in a triple exactly when it lies in a run of three or more. *)
Lemma inTriple_inRun (g : Grid) (r c : nat) : inTriple g r c <-> inRun g r c.
Proof.
  unfold inTriple, inRun, hRun, vRun, GRID_SIZE. split.
  - intros [(c0 & Hc0 & Hin & Hr & Hit)|(r0 & Hr0 & Hin & Hc & Hit)];
      apply tripleHit_kinds in Hit; destruct Hit as (k & H1 & H2 & H3); simpl in *.
    + left. exists c0, 3, k. repeat split; try lia.
      intros j Hj. assert (j = 0 \/ j = 1 \/ j = 2) as [->|[->| ->]] by lia;
        [rewrite Nat.add_0_r| |]; assumption.
    + right. exists r0, 3, k. repeat split; try lia.
      intros j Hj. assert (j = 0 \/ j = 1 \/ j = 2) as [->|[->| ->]] by lia;
        [rewrite Nat.add_0_r| |]; assumption.
  - intros [(c0 & len & k & (Hlen & Hfit & Hr & Hk) & Hin)
           |(r0 & len & k & (Hlen & Hfit & Hc & Hk) & Hin)].
    + left. set (s := if c + 3 <=? c0 + len then c else c0 + len - 3).
      assert (c0 <= s /\ s + 3 <= c0 + len /\ s <= c <= s + 2) as (Hs1 & Hs2 & Hs3).
      { unfold s. destruct (Nat.leb_spec (c + 3) (c0 + len)); lia. }
      exists s. repeat split; try lia.
      apply tripleHit_kinds. exists k. simpl.
      replace s with (c0 + (s - c0)) by lia.
      replace (c0 + (s - c0) + 1) with (c0 + (s - c0 + 1)) by lia.
      replace (c0 + (s - c0) + 2) with (c0 + (s - c0 + 2)) by lia.
      repeat split; apply Hk; lia.
    + right. set (s := if r + 3 <=? r0 + len then r else r0 + len - 3).
      assert (r0 <= s /\ s + 3 <= r0 + len /\ s <= r <= s + 2) as (Hs1 & Hs2 & Hs3).
      { unfold s. destruct (Nat.leb_spec (r + 3) (r0 + len)); lia. }
      exists s. repeat split; try lia.
      apply tripleHit_kinds. exists k. simpl.
      replace s with (r0 + (s - r0)) by lia.
      replace (r0 + (s - r0) + 1) with (r0 + (s - r0 + 1)) by lia.
      replace (r0 + (s - r0) + 2) with (r0 + (s - r0 + 2)) by lia.
      repeat split; apply Hk; lia.
Qed.

Lemma get_Some_cellAt (g : Grid) (r c : nat) (t : Token) :
  get g r c = Some t <-> cellAt g r c = Ok (Some (Some t)).
Proof.
  unfold get, cellAt. destruct (nth_error g r) as [line|].
  - destruct (nth_error line c) as [[t'|]|]; split; intro H;
      try discriminate; inversion H; reflexivity.
  - split; discriminate.
Qed.

Lemma kindAt_holdsKind (g : Grid) (r c : nat) (k : TokenType) :
  kindAt g r c = Some k <-> holdsKind g r c k.
Proof.
  unfold kindAt, holdsKind. split.
  - destruct (get g r c) as [t|] eqn:E; [|discriminate].
    simpl. intro H. inversion H. exists t. split; [|reflexivity].
    now apply get_Some_cellAt.
  - intros (t & H & <-). apply get_Some_cellAt in H. now rewrite H.
Qed.

(** On a grid of fewer than eight rows the horizontal scan reads a missing
    row. *)
Lemma findMatches_short (g : Grid) :
  length g < GRID_SIZE -> findMatches g = Throw TypeError.
Proof.
  intro Hg. unfold findMatches, scanHorizontal.
  replace (seq 0 GRID_SIZE)
    with (seq 0 (length g) ++ seq (length g) (GRID_SIZE - length g)).
  2:{ rewrite <- seq_app. f_equal. lia. }
  rewrite forM_app.
  rewrite (forM_pure
    (fun r m => fold_left (fun m' c => addTriple g (r, c) (r, c + 1) (r, c + 2) m')
                          (seq 0 (GRID_SIZE - 2)) m)).
  - destruct (GRID_SIZE - length g) as [|d] eqn:Ed; [lia|].
    simpl. unfold checkTriple, cellAt at 1. simpl.
    assert (nth_error g (length g) = None) as -> by (apply nth_error_None; lia).
    reflexivity.
  - intros r m' Hr. apply in_seq in Hr.
    apply forM_pure with
      (f := fun c m' => addTriple g (r, c) (r, c + 1) (r, c + 2) m').
    intros c m'' _. apply checkTriple_pure; simpl; lia.
Qed.

(** A board given in full is 8x8 by inspection. *)
Ltac board_wf := split; [reflexivity | repeat constructor].

Lemma wfGrid_rows (g : Grid) : wfGrid g -> GRID_SIZE <= length g.
Proof. intros [H _]. rewrite H. apply le_n. Qed.

(* ================================================================== *)
(** ** Match detection: the claims *)

(** C1. On every 8x8 grid [findMatches] returns, and its result lists
    without repetition exactly the slots that lie in a horizontal or
    vertical run of three or more consecutive tokens of one kind; on a
    grid without such a run the result is empty. Diagonals play no part:
    [inRun] has none. *)
Theorem findMatches_exactly_runs (g : Grid) :
  wfGrid g ->
  exists ms, findMatches g = Ok ms /\ NoDup ms /\
    (forall r c, In (r, c) ms <-> inRun g r c) /\
    ((forall r c, ~ inRun g r c) -> ms = []).
Proof.
  intro Hg.
  destruct (findMatches_triples g (wfGrid_rows g Hg)) as (ms & E & Hnd & _ & Hin).
  exists ms. split; [exact E|]. split; [exact Hnd|].
  assert (forall r c, In (r, c) ms <-> inRun g r c) as Hruns.
  { intros r c. rewrite Hin. apply inTriple_inRun. }
  split; [exact Hruns|].
  intro Hnone. destruct ms as [|[r c] ms]; [reflexivity|].
  exfalso. apply (Hnone r c), Hruns. left; reflexivity.
Qed.

Lemma findMatches_exactly_runs_witness :
  wfGrid tripleBoard /\
  exists ms, findMatches tripleBoard = Ok ms /\ NoDup ms /\
    (forall r c, In (r, c) ms <-> inRun tripleBoard r c) /\
    ((forall r c, ~ inRun tripleBoard r c) -> ms = []).
Proof.
  split.
  - board_wf.
  - apply (findMatches_exactly_runs tripleBoard).
    board_wf.
Defined.

(** The scenario of the specification: the triple of [ETH] at row 3,
    columns 2 to 4, is what the detector returns. *)
Example findMatches_tripleBoard :
  findMatches tripleBoard = Ok [(3, 2); (3, 3); (3, 4)].
Proof. reflexivity. Qed.

(** Eight tokens of [ETH] in diagonal are no match. *)
Example findMatches_diagonalBoard : findMatches diagonalBoard = Ok [].
Proof. reflexivity. Qed.

(** C10. Whatever grid [findMatches] returns on, empty slots included, each
    slot it returns holds a token, and lies among three consecutive slots of
    its row or of its column that all hold tokens of that kind: an empty
    slot is never returned, and tokens on either side of an empty slot
    form no triple through it. *)
Theorem findMatches_only_tokens (g : Grid) (ms : list (nat * nat)) (r c : nat) :
  findMatches g = Ok ms -> In (r, c) ms ->
  exists k, holdsKind g r c k /\
    ((exists c0, c0 <= c <= c0 + 2 /\ forall j, j < 3 -> holdsKind g r (c0 + j) k) \/
     (exists r0, r0 <= r <= r0 + 2 /\ forall j, j < 3 -> holdsKind g (r0 + j) c k)).
Proof.
  intros E Hin.
  destruct (Nat.lt_ge_cases (length g) GRID_SIZE) as [Hs|Hg].
  { rewrite findMatches_short in E by exact Hs. discriminate. }
  destruct (findMatches_triples g Hg) as (ms' & E' & _ & _ & Hw).
  rewrite E in E'. inversion E'; subst ms'. apply Hw in Hin.
  destruct Hin as [(c0 & _ & Hc & _ & Hit)|(r0 & _ & Hr & _ & Hit)];
    apply tripleHit_kinds in Hit; destruct Hit as (k & H1 & H2 & H3);
    simpl in *; rewrite kindAt_holdsKind in H1, H2, H3; exists k.
  - assert (forall j, j < 3 -> holdsKind g r (c0 + j) k) as Hall.
    { intros j Hj. assert (j = 0 \/ j = 1 \/ j = 2) as [->|[->| ->]] by lia;
        [rewrite Nat.add_0_r| |]; assumption. }
    split.
    + replace c with (c0 + (c - c0)) by lia. apply Hall. lia.
    + left. exists c0. split; [lia | exact Hall].
  - assert (forall j, j < 3 -> holdsKind g (r0 + j) c k) as Hall.
    { intros j Hj. assert (j = 0 \/ j = 1 \/ j = 2) as [->|[->| ->]] by lia;
        [rewrite Nat.add_0_r| |]; assumption. }
    split.
    + replace r with (r0 + (r - r0)) by lia. apply Hall. lia.
    + right. exists r0. split; [lia | exact Hall].
Qed.

Lemma findMatches_only_tokens_witness :
  findMatches tripleBoard = Ok [(3, 2); (3, 3); (3, 4)] /\
  In (3, 2) [(3, 2); (3, 3); (3, 4)] /\
  exists k, holdsKind tripleBoard 3 2 k /\
    ((exists c0, c0 <= 2 <= c0 + 2 /\
        forall j, j < 3 -> holdsKind tripleBoard 3 (c0 + j) k) \/
     (exists r0, r0 <= 3 <= r0 + 2 /\
        forall j, j < 3 -> holdsKind tripleBoard (r0 + j) 2 k)).
Proof.
  split; [reflexivity|]. split; [simpl; auto|].
  apply (findMatches_only_tokens tripleBoard [(3, 2); (3, 3); (3, 4)] 3 2).
  - reflexivity.
  - simpl; auto.
Defined.

(** Two tokens of [ETH] with an empty slot between them are no match. *)
Example findMatches_gapBoard : findMatches gapBoard = Ok [].
Proof. reflexivity. Qed.

(* ================================================================== *)
(** ** Reads and writes on an 8x8 grid *)

Lemma length_replaceNth {A : Type} (l : list A) (n : nat) (v : A) :
  length (replaceNth l n v) = length l.
Proof.
  revert n. induction l as [|x l IH]; intros [|n]; simpl; try reflexivity.
  now rewrite IH.
Qed.

Lemma nth_error_replaceNth_same {A : Type} (l : list A) (n : nat) (v : A) :
  n < length l -> nth_error (replaceNth l n v) n = Some v.
Proof.
  revert n. induction l as [|x l IH]; intros [|n] H; simpl in *; try lia.
  - reflexivity.
  - apply IH. lia.
Qed.

Lemma nth_error_replaceNth_other {A : Type} (l : list A) (n m : nat) (v : A) :
  m <> n -> nth_error (replaceNth l n v) m = nth_error l m.
Proof.
  revert n m. induction l as [|x l IH]; intros [|n] [|m] H; simpl; try reflexivity.
  - congruence.
  - apply IH. congruence.
Qed.

Lemma Forall_replaceNth {A : Type} (P : A -> Prop) (l : list A) (n : nat) (v : A) :
  Forall P l -> P v -> Forall P (replaceNth l n v).
Proof.
  intros Hl Hv. revert n. induction Hl as [|x l Hx Hl IH]; intros [|n]; simpl;
    constructor; auto.
Qed.

Lemma wfGrid_row (g : Grid) (r : nat) :
  wfGrid g -> r < GRID_SIZE ->
  exists line, nth_error g r = Some line /\ length line = GRID_SIZE.
Proof.
  intros [Hlen Hrows] Hr.
  destruct (nth_error g r) as [line|] eqn:E.
  - exists line. split; [reflexivity|].
    rewrite Forall_forall in Hrows. apply Hrows. eapply nth_error_In, E.
  - apply nth_error_None in E. lia.
Qed.

Lemma cellAt_wf (g : Grid) (r c : nat) :
  wfGrid g -> r < GRID_SIZE -> c < GRID_SIZE ->
  cellAt g r c = Ok (Some (get g r c)).
Proof.
  intros Hg Hr Hc. destruct (wfGrid_row g r Hg Hr) as (line & E & Hl).
  unfold cellAt, get. rewrite E.
  destruct (nth_error line c) as [v|] eqn:Ec; [reflexivity|].
  apply nth_error_None in Ec. lia.
Qed.

Lemma setCell_wf (g : Grid) (r c : nat) (v : Cell) :
  wfGrid g -> r < GRID_SIZE -> c < GRID_SIZE ->
  setCell g r c v = Ok (put g r c v).
Proof.
  intros Hg Hr Hc. destruct (wfGrid_row g r Hg Hr) as (line & E & Hl).
  unfold setCell, put. rewrite E.
  destruct (Nat.ltb_spec c (length line)); [reflexivity | lia].
Qed.

Lemma wfGrid_put (g : Grid) (r c : nat) (v : Cell) :
  wfGrid g -> wfGrid (put g r c v).
Proof.
  intros Hg. unfold put. destruct (nth_error g r) as [line|] eqn:E; [|exact Hg].
  destruct Hg as [Hlen Hrows]. split.
  - now rewrite length_replaceNth.
  - apply Forall_replaceNth; [exact Hrows|].
    rewrite length_replaceNth. rewrite Forall_forall in Hrows.
    apply Hrows. eapply nth_error_In, E.
Qed.

Lemma get_put_same (g : Grid) (r c : nat) (v : Cell) :
  wfGrid g -> r < GRID_SIZE -> c < GRID_SIZE -> get (put g r c v) r c = v.
Proof.
  intros Hg Hr Hc. destruct (wfGrid_row g r Hg Hr) as (line & E & Hl).
  unfold get, put. rewrite E.
  rewrite nth_error_replaceNth_same by (destruct Hg; lia).
  rewrite nth_error_replaceNth_same by lia. reflexivity.
Qed.

Lemma get_put_other (g : Grid) (r c r' c' : nat) (v : Cell) :
  (r', c') <> (r, c) -> get (put g r c v) r' c' = get g r' c'.
Proof.
  intros Hne. unfold get, put.
  destruct (nth_error g r) as [line|] eqn:E; [|reflexivity].
  destruct (Nat.eq_dec r' r) as [->|Hr].
  - destruct (Nat.lt_ge_cases r (length g)) as [Hlt|Hge].
    + rewrite nth_error_replaceNth_same by exact Hlt. rewrite E.
      rewrite nth_error_replaceNth_other by congruence. reflexivity.
    + apply nth_error_None in Hge. congruence.
  - rewrite nth_error_replaceNth_other by exact Hr. reflexivity.
Qed.

Lemma get_put (g : Grid) (r c r' c' : nat) (v : Cell) :
  wfGrid g -> r < GRID_SIZE -> c < GRID_SIZE ->
  get (put g r c v) r' c' = if (r' =? r) && (c' =? c) then v else get g r' c'.
Proof.
  intros Hg Hr Hc.
  destruct (Nat.eqb_spec r' r) as [->|Hr']; simpl.
  - destruct (Nat.eqb_spec c' c) as [->|Hc'].
    + now apply get_put_same.
    + apply get_put_other. congruence.
  - apply get_put_other. congruence.
Qed.

(* ================================================================== *)
(** ** The resolution step at a fixpoint *)

Lemma processCascade_unmatched (oracle : Oracle) (g : Grid) (n : nat) :
  findMatches g = Ok [] -> processCascade oracle g n = Ok (g, 0, n).
Proof.
  intro E. unfold processCascade. rewrite E. reflexivity.
Qed.

(** C3. On a grid in which [findMatches] finds nothing, [processCascade]
    returns that grid and the count 0 (and reads nothing from the random
    source); applied to what it has returned, it returns the same again. *)
Theorem processCascade_no_match (oracle : Oracle) (g : Grid) (n : nat) :
  findMatches g = Ok [] ->
  processCascade oracle g n = Ok (g, 0, n) /\
  forall g' k n',
    processCascade oracle g n = Ok (g', k, n') ->
    g' = g /\ k = 0 /\ processCascade oracle g' n' = Ok (g', k, n').
Proof.
  intro E.
  assert (H : processCascade oracle g n = Ok (g, 0, n))
    by (unfold processCascade; rewrite E; reflexivity).
  split; [exact H|].
  intros g' k n' H'. rewrite H in H'. inversion H'; subst. auto.
Qed.

Lemma processCascade_no_match_witness :
  findMatches (boardOf (fun r c => Some (checker r c))) = Ok [] /\
  processCascade onlyETH (boardOf (fun r c => Some (checker r c))) 0
  = Ok (boardOf (fun r c => Some (checker r c)), 0, 0) /\
  forall g' k n',
    processCascade onlyETH (boardOf (fun r c => Some (checker r c))) 0
    = Ok (g', k, n') ->
    g' = boardOf (fun r c => Some (checker r c)) /\ k = 0 /\
    processCascade onlyETH g' n' = Ok (g', k, n').
Proof.
  split; [reflexivity|].
  apply (processCascade_no_match onlyETH
           (boardOf (fun r c => Some (checker r c))) 0).
  reflexivity.
Defined.

(* ================================================================== *)
(** ** Progression: the end of a cascade and the click handler *)



(** C6. A click on a cell adjacent to the selected one whose exchange leaves
    a grid without match changes nothing but the selection: the grid is the
    one before the swap, no move is spent, no cascade is started, and every
    other field of the state is as before. *)
Theorem swap_without_match_discarded (cascadeState prev : CascadeState)
    (r c : nat) (sel : nat * nat) (g' : Grid) :
  isProcessing cascadeState = false ->
  gameStatus cascadeState = playing ->
  selectedToken cascadeState = Some sel ->
  isAdjacent sel r c = true ->
  swapTokens (grid prev) r c sel = Ok g' ->
  findMatches g' = Ok [] ->
  exists out, handleTokenClick cascadeState r c prev = Ok out /\
    cascadeOn out = None /\
    grid (nextState out) = grid prev /\
    moves (nextState out) = moves prev /\
    selectedToken (nextState out) = None /\
    score (nextState out) = score prev /\
    level (nextState out) = level prev /\
    targetScore (nextState out) = targetScore prev /\
    gameStatus (nextState out) = gameStatus prev /\
    cascadeCombo (nextState out) = cascadeCombo prev /\
    isProcessing (nextState out) = isProcessing prev.
Proof.
  intros Hproc Hplay Hsel Hadj Hswap Hnone.
  unfold handleTokenClick. rewrite Hproc, Hplay, Hsel, Hadj, Hswap. simpl.
  rewrite Hnone. simpl.
  eexists. split; [reflexivity|]. simpl. repeat split; reflexivity.
Qed.

Lemma swap_without_match_discarded_witness :
  exists g',
    swapTokens (boardOf (fun r c => Some (checker r c))) 0 1 (0, 0) = Ok g' /\
    findMatches g' = Ok [] /\
    exists out,
      handleTokenClick
        (inPlay (boardOf (fun r c => Some (checker r c))) 0 20 (Some (0, 0)))
        0 1 (inPlay (boardOf (fun r c => Some (checker r c))) 0 20 (Some (0, 0)))
      = Ok out /\
      cascadeOn out = None /\
      grid (nextState out) = boardOf (fun r c => Some (checker r c)) /\
      moves (nextState out) = 20%Z /\
      selectedToken (nextState out) = None /\
      score (nextState out) = 0%Z /\
      level (nextState out) = 1%Z /\
      targetScore (nextState out) = 1000%Z /\
      gameStatus (nextState out) = playing /\
      cascadeCombo (nextState out) = 0%Z /\
      isProcessing (nextState out) = false.
Proof.
  eexists. split; [vm_compute; reflexivity|]. split; [vm_compute; reflexivity|].
  eapply (swap_without_match_discarded
            (inPlay (boardOf (fun r c => Some (checker r c))) 0 20 (Some (0, 0)))
            (inPlay (boardOf (fun r c => Some (checker r c))) 0 20 (Some (0, 0)))
            0 1 (0, 0)); vm_compute; reflexivity.
Defined.

(** C7. A click that exchanges two adjacent tokens and leaves a grid with a
    match starts one cascade on that grid and takes exactly one move; if
    this leaves no move while the score, the points of the cascade not yet
    added, is below the target score, the status is [gameOver] at once.
    However many steps the cascade then makes, its end takes no further
    move: the moves stay as the click left them, unless the cascade
    completes the level and resets them to the initial 20. *)
Theorem swap_with_match_costs_one_move (cascadeState prev : CascadeState)
    (r c : nat) (sel : nat * nat) (g' : Grid) (ms : list (nat * nat)) :
  isProcessing cascadeState = false ->
  gameStatus cascadeState = playing ->
  selectedToken cascadeState = Some sel ->
  isAdjacent sel r c = true ->
  swapTokens (grid prev) r c sel = Ok g' ->
  findMatches g' = Ok ms ->
  ms <> [] ->
  exists out, handleTokenClick cascadeState r c prev = Ok out /\
    cascadeOn out = Some g' /\
    grid (nextState out) = g' /\
    moves (nextState out) = (moves prev - 1)%Z /\
    ((moves prev - 1 <= 0)%Z -> (score prev < targetScore prev)%Z ->
       gameStatus (nextState out) = gameOver) /\
    (forall oracle fuel n st n',
       processCascadingMatches oracle fuel g' n (nextState out) = Some (Ok (st, n')) ->
       moves st = (moves prev - 1)%Z \/
       (gameStatus st = levelComplete /\ moves st = INITIAL_MOVES)).
Proof.
  intros Hproc Hplay Hsel Hadj Hswap Hms Hne.
  unfold handleTokenClick. rewrite Hproc, Hplay, Hsel, Hadj, Hswap. simpl.
  rewrite Hms. simpl.
  destruct ms as [|m ms]; [congruence|]. simpl.
  eexists. split; [reflexivity|]. simpl.
  split; [reflexivity|]. split; [reflexivity|]. split; [reflexivity|]. split.
  - intros Hz Hs.
    destruct (Z.leb_spec (moves prev - 1) 0); [|lia].
    destruct (Z.ltb_spec (score prev) (targetScore prev)); [|lia]. reflexivity.
  - intros oracle fuel n st n'. unfold processCascadingMatches.
    destruct (cascadeLoop oracle fuel g' 0 0 n) as [[[[[g combo] total] k]|e]|];
      try discriminate.
    intro E. inversion E; subst st n'; clear E.
    unfold finishCascade. simpl.
    match goal with |- context [if ?b then INITIAL_MOVES else _] => destruct b end.
    + right. split; reflexivity.
    + left. reflexivity.
Qed.

Lemma swap_with_match_costs_one_move_witness :
  exists g',
    swapTokens swapBoard 3 4 (4, 4) = Ok g' /\
    findMatches g' = Ok [(3, 2); (3, 3); (3, 4)] /\
    exists out,
      handleTokenClick (inPlay swapBoard 800 1 (Some (4, 4))) 3 4
                       (inPlay swapBoard 800 1 (Some (4, 4))) = Ok out /\
      cascadeOn out = Some g' /\
      grid (nextState out) = g' /\
      moves (nextState out) = (1 - 1)%Z /\
      ((1 - 1 <= 0)%Z -> (800 < 1000)%Z -> gameStatus (nextState out) = gameOver) /\
      (forall oracle fuel n st n',
         processCascadingMatches oracle fuel g' n (nextState out) = Some (Ok (st, n')) ->
         moves st = (1 - 1)%Z \/
         (gameStatus st = levelComplete /\ moves st = INITIAL_MOVES)).
Proof.
  eexists. split; [vm_compute; reflexivity|]. split; [vm_compute; reflexivity|].
  eapply (swap_with_match_costs_one_move
            (inPlay swapBoard 800 1 (Some (4, 4)))
            (inPlay swapBoard 800 1 (Some (4, 4)))
            3 4 (4, 4) _ [(3, 2); (3, 3); (3, 4)]);
    first [discriminate | vm_compute; reflexivity].
Defined.

(* ================================================================== *)
(** ** The resolution step: clearing *)

Lemma inb_In (p : nat * nat) (ms : list (nat * nat)) : inb p ms = true <-> In p ms.
Proof.
  unfold inb. rewrite existsb_exists. split.
  - intros ([a b] & Hin & E). apply andb_true_iff in E. destruct E as [E1 E2].
    apply Nat.eqb_eq in E1, E2. simpl in *. destruct p; simpl in *. now subst.
  - intros Hin. exists p. split; [exact Hin|]. now rewrite !Nat.eqb_refl.
Qed.

Lemma clearMatches_wf (ms : list (nat * nat)) :
  Forall (fun p => fst p < GRID_SIZE /\ snd p < GRID_SIZE) ms ->
  forall g, wfGrid g ->
    clearMatches ms g = Ok (cleared ms g) /\ wfGrid (cleared ms g) /\
    forall r c, get (cleared ms g) r c = if inb (r, c) ms then None else get g r c.
Proof.
  unfold clearMatches, cleared.
  induction 1 as [|[a b] ms [Ha Hb] _ IH]; intros g Hg; simpl in *.
  - split; [reflexivity|]. split; [exact Hg|]. reflexivity.
  - rewrite setCell_wf by assumption. simpl.
    destruct (IH (put g a b None) (wfGrid_put _ _ _ _ Hg)) as (E & Hwf & Hget).
    split; [exact E|]. split; [exact Hwf|].
    intros r c. rewrite Hget, get_put by assumption.
    destruct (Nat.eqb_spec a r) as [->|Hne]; simpl.
    + rewrite Nat.eqb_refl. simpl.
      destruct (Nat.eqb_spec b c) as [->|Hne].
      * rewrite Nat.eqb_refl. simpl. now destruct (inb _ _).
      * destruct (Nat.eqb_spec c b); [congruence|]. reflexivity.
    + destruct (Nat.eqb_spec r a); [congruence|]. reflexivity.
Qed.

(* ================================================================== *)
(** ** The resolution step: gravity in one column *)

Lemma forM_cons {X S : Type} (body : X -> S -> result S) (x : X) (xs : list X) (s : S) :
  forM (x :: xs) body s = (s' <- body x s ;; forM xs body s').
Proof. reflexivity. Qed.

Lemma downFrom_S (k : nat) : downFrom (S k) = k :: downFrom k.
Proof. unfold downFrom. rewrite seq_S, rev_app_distr. reflexivity. Qed.

Lemma tokensUp_ext (f f' : nat -> Cell) (k : nat) :
  (forall r, r < k -> f r = f' r) -> tokensUp f k = tokensUp f' k.
Proof.
  induction k as [|k IH]; intro H; simpl; [reflexivity|].
  rewrite <- (H k) by lia. rewrite IH by (intros; apply H; lia). reflexivity.
Qed.

Lemma tokensUp_none (f : nat -> Cell) (k : nat) :
  (forall r, r < k -> f r = None) -> tokensUp f k = [].
Proof.
  induction k as [|k IH]; intro H; simpl; [reflexivity|].
  rewrite H by lia. apply IH. intros; apply H; lia.
Qed.

Lemma tokensUp_length (f : nat -> Cell) (k : nat) : length (tokensUp f k) <= k.
Proof.
  induction k as [|k IH]; simpl; [lia|]. destruct (f k); simpl; lia.
Qed.

Lemma gravityStep_wf (g : Grid) (c r : nat) (e : Z) :
  wfGrid g -> r < GRID_SIZE -> c < GRID_SIZE -> (0 <= e <= 7)%Z ->
  gravityStep c r (g, e) =
  Ok (match get g r c with
      | None => (g, e)
      | Some t =>
          (if (Z.of_nat r =? e)%Z then g
           else put (put g (Z.to_nat e) c (Some (moveTo t (Z.to_nat e) c))) r c None,
           (e - 1)%Z)
      end).
Proof.
  intros Hg Hr Hc He. unfold gravityStep. rewrite cellAt_wf by assumption. simpl.
  destruct (get g r c) as [t|]; [|reflexivity].
  destruct (Z.of_nat r =? e)%Z; simpl; [reflexivity|].
  unfold setCellZ. destruct (Z.ltb_spec e 0); [lia|].
  rewrite setCell_wf by (unfold GRID_SIZE; auto; lia). simpl.
  rewrite setCell_wf by (try apply wfGrid_put; assumption). reflexivity.
Qed.

Lemma gravity_loop (c : nat) :
  c < GRID_SIZE ->
  forall (k : nat) (g : Grid) (e : Z),
    wfGrid g -> k <= GRID_SIZE -> (Z.of_nat k - 1 <= e <= 7)%Z ->
    (forall r, k <= r -> (Z.of_nat r <= e)%Z -> get g r c = None) ->
    let ts := tokensUp (fun r => get g r c) k in
    exists g',
      forM (downFrom k) (gravityStep c) (g, e)
        = Ok (g', (e - Z.of_nat (length ts))%Z) /\
      wfGrid g' /\
      (forall r c', c' <> c -> get g' r c' = get g r c') /\
      (forall r, (e < Z.of_nat r)%Z -> get g' r c = get g r c) /\
      (forall r, (Z.of_nat r <= e - Z.of_nat (length ts))%Z -> get g' r c = None) /\
      (forall j r t, nth_error ts j = Some (r, t) ->
         get g' (Z.to_nat (e - Z.of_nat j)) c
         = Some (place c r t (Z.to_nat (e - Z.of_nat j)))).
Proof.
  intro Hc. induction k as [|k IH]; intros g e Hg Hk He Hnull ts.
  - exists g. subst ts. simpl. rewrite Z.sub_0_r.
    split; [reflexivity|]. split; [exact Hg|]. split; [reflexivity|].
    split; [reflexivity|]. split.
    + intros r Hr. apply Hnull; lia.
    + intros [|j] r t H; discriminate.
  - rewrite downFrom_S, forM_cons.
    rewrite gravityStep_wf by (unfold GRID_SIZE in *; auto; lia).
    subst ts. simpl tokensUp.
    destruct (get g k c) as [t|] eqn:Ek; simpl bind.
    + (* a token at row k *)
      destruct (Z.eqb_spec (Z.of_nat k) e) as [Hke|Hke].
      * (* already in its slot *)
        assert (Hn' : forall r, k <= r -> (Z.of_nat r <= e - 1)%Z -> get g r c = None)
          by (intros; lia).
        destruct (IH g (e - 1)%Z Hg ltac:(lia) ltac:(lia) Hn')
          as (g' & E & Hwf & Hcol & Hup & Hdown & Hplace).
        exists g'. cbn [length].
        replace (e - Z.of_nat (S (length (tokensUp (fun r => get g r c) k))))%Z
          with (e - 1 - Z.of_nat (length (tokensUp (fun r => get g r c) k)))%Z by lia.
        split; [exact E|]. split; [exact Hwf|]. split; [exact Hcol|].
        split; [intros r Hr; apply Hup; lia|]. split; [exact Hdown|].
        intros [|j] r t' Hj; simpl in Hj.
        -- inversion Hj; subst r t'. rewrite Z.sub_0_r.
           replace (Z.to_nat e) with k by lia.
           rewrite Hup by lia. unfold place. now rewrite Nat.eqb_refl.
        -- replace (e - Z.of_nat (S j))%Z with (e - 1 - Z.of_nat j)%Z by lia.
           now apply Hplace.
      * (* moved down to the slot [emptyRow] *)
        set (E := Z.to_nat e).
        set (g1 := put (put g E c (Some (moveTo t E c))) k c None).
        assert (HE : E < GRID_SIZE) by (unfold GRID_SIZE, E; lia).
        assert (HkE : k < E) by (unfold E; lia).
        assert (Hk8 : k < GRID_SIZE) by lia.
        assert (Hg1 : wfGrid g1) by (unfold g1; apply wfGrid_put, wfGrid_put, Hg).
        assert (Hget1 : forall r c', get g1 r c' =
                  if (r =? k) && (c' =? c) then None
                  else if (r =? E) && (c' =? c) then Some (moveTo t E c)
                  else get g r c').
        { intros r c'. unfold g1.
          rewrite get_put by (try apply wfGrid_put; assumption).
          rewrite get_put by assumption. reflexivity. }
        assert (Hn' : forall r, k <= r -> (Z.of_nat r <= e - 1)%Z -> get g1 r c = None).
        { intros r Hr1 Hr2. rewrite Hget1, Nat.eqb_refl, andb_true_r.
          destruct (Nat.eqb_spec r k); [reflexivity|].
          destruct (Nat.eqb_spec r E); [lia|]. apply Hnull; lia. }
        destruct (IH g1 (e - 1)%Z Hg1 ltac:(lia) ltac:(lia) Hn')
          as (g' & E' & Hwf & Hcol & Hup & Hdown & Hplace).
        assert (Hts : tokensUp (fun r => get g1 r c) k = tokensUp (fun r => get g r c) k).
        { apply tokensUp_ext. intros r Hr. rewrite Hget1.
          destruct (Nat.eqb_spec r k); [lia|].
          destruct (Nat.eqb_spec r E); [lia|]. reflexivity. }
        rewrite Hts in *.
        exists g'. cbn [length].
        replace (e - Z.of_nat (S (length (tokensUp (fun r => get g r c) k))))%Z
          with (e - 1 - Z.of_nat (length (tokensUp (fun r => get g r c) k)))%Z by lia.
        split; [exact E'|]. split; [exact Hwf|]. split.
        { intros r c' Hc'. rewrite Hcol, Hget1 by exact Hc'.
          destruct (Nat.eqb_spec c' c); [congruence|]. now rewrite !andb_false_r. }
        split.
        { intros r Hr. rewrite Hup, Hget1 by lia.
          destruct (Nat.eqb_spec r k); [lia|].
          destruct (Nat.eqb_spec r E); [lia|]. reflexivity. }
        split; [exact Hdown|].
        intros [|j] r t' Hj; simpl in Hj.
        -- inversion Hj; subst r t'. rewrite Z.sub_0_r. fold E.
           rewrite Hup by lia. rewrite Hget1, !Nat.eqb_refl.
           destruct (Nat.eqb_spec E k); [lia|]. simpl.
           unfold place. destruct (Nat.eqb_spec k E); [lia|]. reflexivity.
        -- replace (e - Z.of_nat (S j))%Z with (e - 1 - Z.of_nat j)%Z by lia.
           now apply Hplace.
    + (* an empty slot at row k *)
      assert (Hn' : forall r, k <= r -> (Z.of_nat r <= e)%Z -> get g r c = None).
      { intros r Hr1 Hr2. destruct (Nat.eq_dec r k) as [->|Hne]; [exact Ek|].
        apply Hnull; lia. }
      destruct (IH g e Hg ltac:(lia) ltac:(lia) Hn')
        as (g' & E & Hwf & Hcol & Hup & Hdown & Hplace).
      exists g'. split; [exact E|]. split; [exact Hwf|]. split; [exact Hcol|].
      split; [exact Hup|]. split; [exact Hdown | exact Hplace].
Qed.

(* ================================================================== *)
(** ** The resolution step: refill, and all columns *)

Lemma refill_loop (oracle : Oracle) (c : nat) :
  c < GRID_SIZE ->
  forall (k : nat) (g : Grid) (n : nat),
    wfGrid g -> k <= GRID_SIZE ->
    exists g',
      forM (downFrom k) (refillStep oracle c) (g, n) = Ok (g', n + k) /\
      wfGrid g' /\
      (forall r c', c' <> c \/ k <= r -> get g' r c' = get g r c') /\
      (forall r, r < k ->
         get g' r c = Some (freshToken oracle (n + (k - 1 - r)) r c true)).
Proof.
  intro Hc. induction k as [|k IH]; intros g n Hg Hk.
  - exists g. simpl. rewrite Nat.add_0_r.
    split; [reflexivity|]. split; [exact Hg|]. split; [reflexivity|]. intros; lia.
  - rewrite downFrom_S, forM_cons. unfold refillStep at 1.
    rewrite setCell_wf by (auto; lia). cbn [bind].
    set (g1 := put g k c (Some (freshToken oracle n k c true))).
    assert (Hg1 : wfGrid g1) by apply wfGrid_put, Hg.
    destruct (IH g1 (S n) Hg1 ltac:(lia)) as (g' & E & Hwf & Hsame & Hnew).
    exists g'. replace (n + S k) with (S n + k) by lia.
    split; [exact E|]. split; [exact Hwf|]. split.
    + intros r c' H. rewrite Hsame by (destruct H; [left; assumption | right; lia]).
      unfold g1. apply get_put_other. intro P. inversion P. lia.
    + intros r Hr. destruct (Nat.eq_dec r k) as [->|Hne].
      * rewrite Hsame by (right; lia). unfold g1.
        rewrite get_put_same by (auto; lia).
        replace (n + (S k - 1 - k)) with n by lia. reflexivity.
      * rewrite Hnew by lia.
        replace (S n + (k - 1 - r)) with (n + (S k - 1 - r)) by lia. reflexivity.
Qed.

Lemma settleColumn_wf (oracle : Oracle) (c : nat) (g : Grid) (n : nat) :
  c < GRID_SIZE -> wfGrid g ->
  let ts := tokensUp (fun r => get g r c) GRID_SIZE in
  exists g',
    settleColumn oracle c (g, n) = Ok (g', n + (GRID_SIZE - length ts)) /\
    wfGrid g' /\
    (forall r c', c' <> c -> get g' r c' = get g r c') /\
    (forall r, r < GRID_SIZE - length ts ->
       get g' r c
       = Some (freshToken oracle (n + (GRID_SIZE - 1 - length ts - r)) r c true)) /\
    (forall j r t, nth_error ts j = Some (r, t) ->
       get g' (GRID_SIZE - 1 - j) c = Some (place c r t (GRID_SIZE - 1 - j))).
Proof.
  intros Hc Hg ts.
  assert (Hlen : length ts <= GRID_SIZE) by apply tokensUp_length.
  assert (Hnull : forall r, GRID_SIZE <= r -> (Z.of_nat r <= Z.of_nat GRID_SIZE - 1)%Z ->
                            get g r c = None) by (intros; lia).
  destruct (gravity_loop c Hc GRID_SIZE g (Z.of_nat GRID_SIZE - 1)%Z Hg (le_n _)
              ltac:(unfold GRID_SIZE; lia) Hnull)
    as (g1 & E1 & Hg1 & Hcol1 & _ & _ & Hplace1).
  fold ts in E1, Hplace1.
  unfold settleColumn. rewrite E1. cbn [bind].
  replace (Z.to_nat (Z.of_nat GRID_SIZE - 1 - Z.of_nat (length ts) + 1))
    with (GRID_SIZE - length ts) by lia.
  destruct (refill_loop oracle c Hc (GRID_SIZE - length ts) g1 n Hg1 ltac:(lia))
    as (g' & E & Hwf & Hsame & Hnew).
  exists g'. split; [exact E|]. split; [exact Hwf|]. split; [|split].
  - intros r c' Hc'. rewrite Hsame by (left; exact Hc'). now apply Hcol1.
  - intros r Hr. rewrite Hnew by exact Hr. do 2 f_equal. unfold GRID_SIZE in *. lia.
  - intros j r t Hj.
    assert (j < length ts) by (apply nth_error_Some; congruence).
    rewrite Hsame by (right; unfold GRID_SIZE in *; lia).
    specialize (Hplace1 j r t Hj).
    replace (Z.to_nat (Z.of_nat GRID_SIZE - 1 - Z.of_nat j)) with (GRID_SIZE - 1 - j)
      in Hplace1 by (unfold GRID_SIZE in *; lia).
    exact Hplace1.
Qed.

Lemma columns_loop (oracle : Oracle) :
  forall (len a : nat) (g : Grid) (n : nat),
    wfGrid g -> a + len <= GRID_SIZE ->
    exists g' n',
      forM (seq a len) (settleColumn oracle) (g, n) = Ok (g', n') /\
      wfGrid g' /\
      (forall r c, c < a \/ a + len <= c -> get g' r c = get g r c) /\
      (forall c, a <= c < a + len ->
         settledFrom oracle (tokensUp (fun r => get g r c) GRID_SIZE) g' c).
Proof.
  induction len as [|len IH]; intros a g n Hg Hfit.
  - exists g, n. split; [reflexivity|]. split; [exact Hg|].
    split; [reflexivity|]. intros; lia.
  - cbn [seq]. rewrite forM_cons.
    destruct (settleColumn_wf oracle a g n ltac:(lia) Hg)
      as (g1 & E1 & Hg1 & Hcol1 & Hnew1 & Hplace1).
    rewrite E1. cbn [bind].
    destruct (IH (S a) g1 (n + (GRID_SIZE - length (tokensUp (fun r => get g r a) GRID_SIZE)))
                Hg1 ltac:(lia))
      as (g' & n' & E & Hwf & Hsame & Hset).
    exists g', n'. split; [exact E|]. split; [exact Hwf|]. split; [|].
    + intros r c Hc. rewrite Hsame by lia. apply Hcol1. lia.
    + intros c Hc. destruct (Nat.eq_dec c a) as [->|Hne].
      * exists n. split.
        -- intros r Hr. rewrite Hsame by lia. now apply Hnew1.
        -- intros j r t Hj. rewrite Hsame by lia. now apply Hplace1.
      * replace (tokensUp (fun r => get g r c) GRID_SIZE)
          with (tokensUp (fun r => get g1 r c) GRID_SIZE).
        -- apply Hset. lia.
        -- apply tokensUp_ext. intros r _. now apply Hcol1.
Qed.

Lemma survivors_cleared (g : Grid) (ms : list (nat * nat)) (c : nat) :
  Forall (fun p => fst p < GRID_SIZE /\ snd p < GRID_SIZE) ms -> wfGrid g ->
  tokensUp (fun r => get (cleared ms g) r c) GRID_SIZE = survivors g ms c.
Proof.
  intros Hms Hg. unfold survivors. apply tokensUp_ext. intros r _.
  apply (clearMatches_wf ms Hms g Hg).
Qed.

(** The resolution step on an 8x8 grid with a match: it returns, the new
    grid is 8x8, and each of its columns is the survivors of that column
    settled under new tokens. *)
Lemma processCascade_settles (oracle : Oracle) (g : Grid) (n : nat)
    (ms : list (nat * nat)) :
  wfGrid g -> findMatches g = Ok ms -> ms <> [] ->
  exists g' n',
    processCascade oracle g n = Ok (g', length ms, n') /\
    wfGrid g' /\
    forall c, c < GRID_SIZE -> settledFrom oracle (survivors g ms c) g' c.
Proof.
  intros Hg Ems Hne.
  destruct (findMatches_triples g (wfGrid_rows g Hg)) as (ms' & E' & _ & Hrange & _).
  rewrite Ems in E'. inversion E'; subst ms'; clear E'.
  destruct (clearMatches_wf ms Hrange g Hg) as (Ec & Hgc & _).
  destruct (columns_loop oracle GRID_SIZE 0 (cleared ms g) n Hgc ltac:(lia))
    as (g' & n' & E & Hwf & _ & Hset).
  exists g', n'. split; [|split; [exact Hwf|]].
  - unfold processCascade. rewrite Ems. cbn [bind].
    destruct ms as [|m ms]; [congruence|]. cbn [length Nat.eqb].
    rewrite Ec. cbn [bind]. rewrite E. reflexivity.
  - intros c Hc. rewrite <- (survivors_cleared g ms c Hrange Hg). apply Hset. lia.
Qed.

(** The resolution step returns on every 8x8 grid, with an 8x8 grid. *)
Lemma processCascade_total (oracle : Oracle) (g : Grid) (n : nat) :
  wfGrid g ->
  exists g' k n', processCascade oracle g n = Ok (g', k, n') /\ wfGrid g'.
Proof.
  intro Hg.
  destruct (findMatches_triples g (wfGrid_rows g Hg)) as (ms & E & _).
  destruct ms as [|m ms].
  - exists g, 0, n. split; [now apply processCascade_unmatched | exact Hg].
  - destruct (processCascade_settles oracle g n (m :: ms) Hg E ltac:(discriminate))
      as (g' & n' & E' & Hwf & _).
    exists g', (length (m :: ms)), n'. split; [exact E' | exact Hwf].
Qed.

(* ================================================================== *)
(** ** The resolution step: compaction *)

Lemma tokensUp_nth (f : nat -> Cell) (k j r : nat) (t : Token) :
  nth_error (tokensUp f k) j = Some (r, t) -> r < k /\ f r = Some t.
Proof.
  revert j. induction k as [|k IH]; intros j H; simpl in H.
  - destruct j; discriminate.
  - destruct (f k) as [t'|] eqn:E.
    + destruct j as [|j]; simpl in H.
      * inversion H; subst. split; [lia | exact E].
      * destruct (IH j H). split; [lia | assumption].
    + destruct (IH j H). split; [lia | assumption].
Qed.



Lemma settledFrom_full (oracle : Oracle) (ts : list (nat * Token)) (g' : Grid)
    (c r : nat) :
  length ts <= GRID_SIZE -> settledFrom oracle ts g' c -> r < GRID_SIZE ->
  get g' r c <> None.
Proof.
  intros Hlen (n0 & Hnew & Hold) Hr.
  destruct (Nat.lt_ge_cases r (GRID_SIZE - length ts)) as [Hlt|Hge].
  - rewrite Hnew by exact Hlt. discriminate.
  - assert (GRID_SIZE - 1 - r < length ts) as Hj by (unfold GRID_SIZE in *; lia).
    destruct (nth_error ts (GRID_SIZE - 1 - r)) as [[r0 t]|] eqn:E.
    + apply Hold in E.
      replace (GRID_SIZE - 1 - (GRID_SIZE - 1 - r)) with r in E
        by (unfold GRID_SIZE in *; lia).
      rewrite E. discriminate.
    + apply nth_error_None in E. lia.
Qed.



(** The scenario of the specification: the step on the board with the
    triple at row 3 returns the count 3, and in columns 2 to 4 the three
    tokens above the triple have come down by one row under a new token. *)
Example processCascade_tripleBoard :
  exists g' n',
    processCascade alternating tripleBoard 0 = Ok (g', 3, n') /\
    map (fun r => map (fun c => option_map id (get g' r c)) [2; 3; 4]) [0; 1; 2; 3]
    = [[Some "0-2-t"; Some "0-3-t"; Some "0-4-t"];
       [Some "0-2"; Some "0-3"; Some "0-4"];
       [Some "1-2"; Some "1-3"; Some "1-4"];
       [Some "2-2"; Some "2-3"; Some "2-4"]]%string.
Proof. do 2 eexists. split; vm_compute; reflexivity. Qed.

(** The step on a grid with an empty slot and no match returns it as it
    is, the empty slot [(7, 0)] still below the token of [(6, 0)]. *)
Example processCascade_holeBoard :
  wfGrid holeBoard /\
  processCascade alternating holeBoard 0 = Ok (holeBoard, 0, 0) /\
  get holeBoard 6 0 <> None /\
  get holeBoard 7 0 = None.
Proof.
  split; [board_wf|].
  split; [reflexivity|]. split; [discriminate | reflexivity].
Qed.


(** A survivor that stays in its slot is not rewritten: the token at the
    bottom of column 0 of [staleBoard] survives the step in place, and still
    stores row 0. *)
Example processCascade_staleBoard :
  exists g' n' t,
    processCascade alternating staleBoard 0 = Ok (g', 3, n') /\
    get g' 7 0 = Some t /\ get staleBoard 7 0 = Some t /\ row t = 0.
Proof. do 3 eexists. repeat split; vm_compute; reflexivity. Qed.

(* ================================================================== *)
(** ** Stored positions *)

Lemma get_outside (g : Grid) (r c : nat) :
  wfGrid g -> GRID_SIZE <= r \/ GRID_SIZE <= c -> get g r c = None.
Proof.
  intros [Hlen Hrows] H. unfold get.
  destruct (nth_error g r) as [line|] eqn:E; [|reflexivity].
  destruct (nth_error line c) as [v|] eqn:Ec; [|reflexivity].
  exfalso. assert (r < length g) by (apply nth_error_Some; congruence).
  assert (c < length line) by (apply nth_error_Some; congruence).
  rewrite Forall_forall in Hrows. specialize (Hrows line (nth_error_In _ _ E)). lia.
Qed.

Lemma positionsOKb_sound (g : Grid) :
  wfGrid g -> positionsOKb g = true -> positionsOK g.
Proof.
  intros Hg Hb r c t Ht.
  destruct (Nat.lt_ge_cases r GRID_SIZE) as [Hr|Hr];
    [|rewrite get_outside in Ht by auto; discriminate].
  destruct (Nat.lt_ge_cases c GRID_SIZE) as [Hc|Hc];
    [|rewrite get_outside in Ht by auto; discriminate].
  unfold positionsOKb in Hb. rewrite forallb_forall in Hb.
  specialize (Hb r ltac:(apply in_seq; lia)). rewrite forallb_forall in Hb.
  specialize (Hb c ltac:(apply in_seq; lia)). rewrite Ht in Hb.
  apply andb_true_iff in Hb. destruct Hb as [H1 H2].
  apply Nat.eqb_eq in H1, H2. auto.
Qed.

Lemma createInitialGrid_ok (oracle : Oracle) (n : nat) :
  wfGrid (fst (createInitialGrid oracle n)) /\
  positionsOK (fst (createInitialGrid oracle n)).
Proof.
  assert (wfGrid (fst (createInitialGrid oracle n))) as Hwf.
  { split; [reflexivity|].
    cbv [createInitialGrid fold_left seq GRID_SIZE fst app]. repeat constructor. }
  split; [exact Hwf|]. apply positionsOKb_sound; [exact Hwf|].
  vm_compute. reflexivity.
Qed.

Lemma restamp_ok (g : Grid) (r c : nat) :
  wfGrid g -> r < GRID_SIZE -> c < GRID_SIZE ->
  wfGrid (restamp g r c) /\ okAt (restamp g r c) r c /\
  forall r' c', (r', c') <> (r, c) -> get (restamp g r c) r' c' = get g r' c'.
Proof.
  intros Hg Hr Hc. unfold restamp. destruct (get g r c) as [t|] eqn:E.
  - split; [apply wfGrid_put, Hg|]. split.
    + intros t' Ht'. rewrite get_put_same in Ht' by assumption.
      inversion Ht'. split; reflexivity.
    + intros r' c' Hne. now apply get_put_other.
  - split; [exact Hg|]. split; [|reflexivity].
    intros t' Ht'. congruence.
Qed.

Lemma cellAt_Some_range (g : Grid) (r c : nat) (v : Cell) :
  wfGrid g -> cellAt g r c = Ok (Some v) -> r < GRID_SIZE /\ c < GRID_SIZE.
Proof.
  intros [Hlen Hrows] H. unfold cellAt in H.
  destruct (nth_error g r) as [line|] eqn:E; [|discriminate].
  inversion H as [Hc].
  assert (r < length g) by (apply nth_error_Some; congruence).
  assert (c < length line) by (apply nth_error_Some; congruence).
  rewrite Forall_forall in Hrows. specialize (Hrows line (nth_error_In _ _ E)). lia.
Qed.

Lemma restamp_setCell (g : Grid) (r c : nat) :
  wfGrid g -> r < GRID_SIZE -> c < GRID_SIZE ->
  match truthy (Some (get g r c)) with
  | Some t => setCell g r c (Some (moveTo t r c))
  | None => Ok g
  end = Ok (restamp g r c).
Proof.
  intros Hg Hr Hc. unfold restamp, truthy.
  destruct (get g r c) as [t|]; [|reflexivity].
  now apply setCell_wf.
Qed.

(** A swap on an 8x8 grid that returns was made on two slots of the grid,
    and exchanges their cells, each token restamped with its new slot. *)
Lemma swapTokens_wf (g g' : Grid) (r c : nat) (sel : nat * nat) :
  wfGrid g -> swapTokens g r c sel = Ok g' ->
  r < GRID_SIZE /\ c < GRID_SIZE /\ fst sel < GRID_SIZE /\ snd sel < GRID_SIZE /\
  g' = restamp (restamp (put (put g r c (get g (fst sel) (snd sel)))
                             (fst sel) (snd sel) (get g r c)) r c)
               (fst sel) (snd sel).
Proof.
  intros Hg H. unfold swapTokens in H.
  destruct (cellAt g r c) as [[temp|]|] eqn:E1; cbn [bind] in H; try discriminate.
  2:{ destruct (cellAt g (fst sel) (snd sel)); cbn [bind] in H; discriminate. }
  destruct (cellAt g (fst sel) (snd sel)) as [[other|]|] eqn:E2; cbn [bind] in H;
    try discriminate.
  destruct (cellAt_Some_range g r c temp Hg E1) as [Hr Hc].
  destruct (cellAt_Some_range g _ _ other Hg E2) as [Hsr Hsc].
  rewrite cellAt_wf in E1, E2 by assumption. inversion E1; inversion E2; subst.
  repeat (split; [assumption|]).
  rewrite setCell_wf in H by assumption. cbn [bind] in H.
  rewrite setCell_wf in H by (try apply wfGrid_put; assumption). cbn [bind] in H.
  set (g2 := put (put g r c (get g (fst sel) (snd sel))) (fst sel) (snd sel) (get g r c)) in *.
  assert (Hg2 : wfGrid g2) by (unfold g2; apply wfGrid_put, wfGrid_put, Hg).
  rewrite cellAt_wf in H by assumption. cbn [bind] in H.
  rewrite restamp_setCell in H by assumption. cbn [bind] in H.
  destruct (restamp_ok g2 r c Hg2 Hr Hc) as (Hg3 & _).
  rewrite cellAt_wf in H by assumption. cbn [bind] in H.
  rewrite restamp_setCell in H by assumption. now inversion H.
Qed.

(** A swap of two slots of an 8x8 grid returns. *)
Lemma swapTokens_total (g : Grid) (r c : nat) (sel : nat * nat) :
  wfGrid g -> r < GRID_SIZE -> c < GRID_SIZE ->
  fst sel < GRID_SIZE -> snd sel < GRID_SIZE ->
  exists g', swapTokens g r c sel = Ok g' /\ wfGrid g'.
Proof.
  intros Hg Hr Hc Hsr Hsc. unfold swapTokens.
  rewrite !cellAt_wf by assumption. cbn [bind].
  rewrite setCell_wf by assumption. cbn [bind].
  rewrite setCell_wf by (try apply wfGrid_put; assumption). cbn [bind].
  set (g2 := put (put g r c (get g (fst sel) (snd sel))) (fst sel) (snd sel) (get g r c)).
  assert (Hg2 : wfGrid g2) by (unfold g2; apply wfGrid_put, wfGrid_put, Hg).
  rewrite cellAt_wf by assumption. cbn [bind].
  rewrite restamp_setCell by assumption. cbn [bind].
  destruct (restamp_ok g2 r c Hg2 Hr Hc) as (Hg3 & _).
  rewrite cellAt_wf by assumption. cbn [bind].
  rewrite restamp_setCell by assumption.
  eexists. split; [reflexivity|].
  now apply restamp_ok.
Qed.

Lemma swapTokens_positions (g g' : Grid) (r c : nat) (sel : nat * nat) :
  wfGrid g -> positionsOK g -> swapTokens g r c sel = Ok g' ->
  wfGrid g' /\ positionsOK g'.
Proof.
  intros Hg Hok H.
  destruct (swapTokens_wf g g' r c sel Hg H) as (Hr & Hc & Hsr & Hsc & ->).
  set (g2 := put (put g r c (get g (fst sel) (snd sel))) (fst sel) (snd sel) (get g r c)).
  assert (Hg2 : wfGrid g2) by (unfold g2; apply wfGrid_put, wfGrid_put, Hg).
  destruct (restamp_ok g2 r c Hg2 Hr Hc) as (Hg3 & Hok3 & Hsame3).
  destruct (restamp_ok (restamp g2 r c) _ _ Hg3 Hsr Hsc) as (Hg4 & Hok4 & Hsame4).
  split; [exact Hg4|]. intros r' c'.
  destruct (Nat.eq_dec r' (fst sel)) as [E1|N1];
    [destruct (Nat.eq_dec c' (snd sel)) as [E2|N2]|].
  - subst. exact Hok4.
  - intros t Ht. rewrite Hsame4 in Ht by congruence.
    destruct (Nat.eq_dec r' r) as [->|N3]; [destruct (Nat.eq_dec c' c) as [->|N4]|].
    + now apply Hok3.
    + rewrite Hsame3 in Ht by congruence. unfold g2 in Ht.
      rewrite !get_put_other in Ht by congruence. now apply Hok.
    + rewrite Hsame3 in Ht by congruence. unfold g2 in Ht.
      rewrite !get_put_other in Ht by congruence. now apply Hok.
  - intros t Ht. rewrite Hsame4 in Ht by congruence.
    destruct (Nat.eq_dec r' r) as [->|N3]; [destruct (Nat.eq_dec c' c) as [->|N4]|].
    + now apply Hok3.
    + rewrite Hsame3 in Ht by congruence. unfold g2 in Ht.
      rewrite !get_put_other in Ht by congruence. now apply Hok.
    + rewrite Hsame3 in Ht by congruence. unfold g2 in Ht.
      rewrite !get_put_other in Ht by congruence. now apply Hok.
Qed.

Lemma processCascade_positions (oracle : Oracle) (g g' : Grid) (n k n' : nat) :
  wfGrid g -> positionsOK g -> processCascade oracle g n = Ok (g', k, n') ->
  wfGrid g' /\ positionsOK g'.
Proof.
  intros Hg Hok H.
  destruct (findMatches_triples g (wfGrid_rows g Hg)) as (ms & E & _).
  destruct ms as [|m ms].
  - rewrite (processCascade_unmatched oracle g n E) in H. inversion H; subst. auto.
  - destruct (processCascade_settles oracle g n (m :: ms) Hg E ltac:(discriminate))
      as (g1 & n1 & E1 & Hwf & Hset).
    rewrite E1 in H. inversion H; subst g1 k n1. split; [exact Hwf|].
    intros r c t Ht.
    destruct (Nat.lt_ge_cases r GRID_SIZE) as [Hr|Hr];
      [|rewrite get_outside in Ht by auto; discriminate].
    destruct (Nat.lt_ge_cases c GRID_SIZE) as [Hc|Hc];
      [|rewrite get_outside in Ht by auto; discriminate].
    destruct (Hset c Hc) as (n0 & Hnew & Hold).
    set (ts := survivors g (m :: ms) c) in *.
    assert (Hlen : length ts <= GRID_SIZE) by apply tokensUp_length.
    destruct (Nat.lt_ge_cases r (GRID_SIZE - length ts)) as [Hlt|Hge].
    + rewrite Hnew in Ht by exact Hlt. inversion Ht. split; reflexivity.
    + destruct (nth_error ts (GRID_SIZE - 1 - r)) as [[r0 t0]|] eqn:Ej.
      2:{ apply nth_error_None in Ej. unfold GRID_SIZE in *. lia. }
      pose proof (Hold _ _ _ Ej) as Hslot.
      replace (GRID_SIZE - 1 - (GRID_SIZE - 1 - r)) with r in Hslot
        by (unfold GRID_SIZE in *; lia).
      rewrite Hslot in Ht. inversion Ht; subst t.
      apply tokensUp_nth in Ej. destruct Ej as [_ Hcell].
      destruct (inb (r0, c) (m :: ms)); [discriminate|].
      apply Hok in Hcell. unfold place.
      destruct (Nat.eqb_spec r0 r) as [->|Hne]; [exact Hcell | split; reflexivity].
Qed.

(** C8. In every grid that the operations of the game produce (the initial
    generation, a swap, a resolution step with its compaction and refill,
    in any number and order) each token stores the row and the column
    of the slot that holds it. *)
Theorem produced_positions (oracle : Oracle) (g : Grid) :
  producedGrid oracle g ->
  forall r c t, cellAt g r c = Ok (Some (Some t)) -> row t = r /\ col t = c.
Proof.
  intro H.
  assert (wfGrid g /\ positionsOK g) as [_ Hok].
  { induction H as [n | g g' r c sel _ [Hg Hok] Hswap | g g' n k n' _ [Hg Hok] Hstep].
    - apply createInitialGrid_ok.
    - now apply (swapTokens_positions g g' r c sel).
    - now apply (processCascade_positions oracle g g' n k n'). }
  intros r c t Ht. apply get_Some_cellAt in Ht. now apply Hok.
Qed.

Lemma produced_positions_witness :
  exists g t,
    producedGrid alternating g /\
    cellAt g 7 0 = Ok (Some (Some t)) /\
    row t = 7 /\ col t = 0.
Proof.
  eexists. eexists. split.
  { eapply (produced_step alternating _ _ 64).
    - apply (produced_initial alternating 0).
    - vm_compute. reflexivity. }
  split; [vm_compute; reflexivity|].
  eapply (produced_positions alternating).
  - eapply (produced_step alternating _ _ 64).
    + apply (produced_initial alternating 0).
    + vm_compute. reflexivity.
  - vm_compute. reflexivity.
Defined.

(* ================================================================== *)
(** ** The cascade loop *)

Lemma cascadeLoop_run (oracle : Oracle) (g g' : Grid) (n n' : nat) (cs : list nat) :
  cascadeRun oracle g n cs g' n' ->
  forall fuel combo total,
    length cs < fuel ->
    cascadeLoop oracle fuel g combo total n
    = Some (Ok (g', (combo + Z.of_nat (length cs))%Z,
                (total + scoreSum (combo + 1) cs)%Z, n')).
Proof.
  induction 1 as [g g0 n n' E | g g1 g' n k n1 n' ks E _ IH];
    intros fuel combo total Hfuel.
  - destruct fuel as [|fuel]; [simpl in Hfuel; lia|].
    simpl. rewrite E. simpl. now rewrite !Z.add_0_r.
  - destruct fuel as [|fuel]; [simpl in Hfuel; lia|].
    cbn [cascadeLoop]. rewrite E. cbn [Nat.eqb].
    rewrite IH by (simpl in Hfuel; lia).
    cbn [length scoreSum]. do 3 f_equal. f_equal; [f_equal|]; lia.
Qed.

Lemma scoreSum_pos (oracle : Oracle) (g g' : Grid) (n n' : nat) (cs : list nat) :
  cascadeRun oracle g n cs g' n' ->
  forall i, (0 < i)%Z -> cs <> [] -> (0 < scoreSum i cs)%Z.
Proof.
  induction 1 as [g g0 n n' E | g g1 g' n k n1 n' ks E Hrun IH]; intros i Hi Hne.
  - congruence.
  - cbn [scoreSum].
    assert (0 <= scoreSum (i + 1) ks)%Z.
    { destruct ks as [|k' ks']; [simpl; lia|].
      apply Z.lt_le_incl, IH; [lia | discriminate]. }
    nia.
Qed.

(** C2. When the successive resolution steps of a cascade clear
    [c1, ..., cn] cells, [n >= 1], [processCascadingMatches] (given fuel for
    the [n + 1] steps) completes, adds to the score the sum of the
    [c_i * 10 * i], [i] from 1, and stores [n] as the combo counter; for the
    counts [3, 4] from score 0 that is score 110 and combo 2. *)
Theorem cascade_score (oracle : Oracle) (g g' : Grid) (n n' : nat)
    (cs : list nat) (fuel : nat) (prev : CascadeState) :
  cascadeRun oracle g n cs g' n' ->
  cs <> [] ->
  length cs < fuel ->
  exists st,
    processCascadingMatches oracle fuel g n prev = Some (Ok (st, n')) /\
    score st = (score prev + scoreSum 1 cs)%Z /\
    cascadeCombo st = Z.of_nat (length cs) /\
    grid st = g' /\
    (cs = [3; 4] -> score prev = 0%Z -> score st = 110%Z /\ cascadeCombo st = 2%Z).
Proof.
  intros Hrun Hne Hfuel. unfold processCascadingMatches.
  rewrite (cascadeLoop_run oracle g g' n n' cs Hrun fuel 0 0 Hfuel).
  eexists. split; [reflexivity|].
  pose proof (scoreSum_pos oracle g g' n n' cs Hrun 1 ltac:(lia) Hne) as Hpos.
  cbn [finishCascade score cascadeCombo grid]. rewrite !Z.add_0_l.
  destruct (Z.ltb_spec 0 (scoreSum 1 cs)) as [_|Hle]; [|lia].
  split; [reflexivity|]. split; [reflexivity|]. split; [reflexivity|].
  intros -> ->. split; reflexivity.
Qed.

Lemma cascade_score_witness :
  exists g',
    cascadeRun alternating comboBoard 0 [3; 4] g' 7 /\
    [3; 4] <> [] /\
    length [3; 4] < 3 /\
    exists st,
      processCascadingMatches alternating 3 comboBoard 0 (inPlay comboBoard 0 19 None)
      = Some (Ok (st, 7)) /\
      score st = (0 + scoreSum 1 [3%nat; 4%nat])%Z /\
      cascadeCombo st = 2%Z /\
      grid st = g' /\
      ([3; 4] = [3; 4] -> 0%Z = 0%Z -> score st = 110%Z /\ cascadeCombo st = 2%Z).
Proof.
  eexists. split.
  { eapply run_step; [vm_compute; reflexivity|].
    eapply run_step; [vm_compute; reflexivity|].
    eapply run_done. vm_compute. reflexivity. }
  split; [discriminate|]. split; [simpl; lia|].
  eapply (cascade_score alternating comboBoard _ 0 7 [3; 4] 3 (inPlay comboBoard 0 19 None)).
  - eapply run_step; [vm_compute; reflexivity|].
    eapply run_step; [vm_compute; reflexivity|].
    eapply run_done. vm_compute. reflexivity.
  - discriminate.
  - simpl; lia.
Defined.

(** The scenario of the specification, evaluated: the cascade of
    [comboBoard] clears 3 then 4 cells and leaves score 110 and combo 2. *)
Example cascade_comboBoard :
  exists g',
    cascadeLoop alternating 3 comboBoard 0 0 0 = Some (Ok (g', 2%Z, 110%Z, 7)).
Proof. eexists. vm_compute. reflexivity. Qed.

(* ================================================================== *)
(** ** Termination of the cascade loop *)

Lemma processCascade_ethBoard (n : nat) :
  processCascade onlyETH ethBoard n = Ok (ethBoard, 64, 64 + n).
Proof. vm_compute. reflexivity. Qed.

Lemma cascadeLoop_ethBoard (fuel : nat) :
  forall combo total n, cascadeLoop onlyETH fuel ethBoard combo total n = None.
Proof.
  induction fuel as [|fuel IH]; intros combo total n; [reflexivity|].
  cbn [cascadeLoop]. rewrite processCascade_ethBoard. cbn [Nat.eqb]. apply IH.
Qed.

(** More generally: a grid of tokens of one kind, refilled by a random
    source that draws that kind only, stays such a grid at every step, and
    every step clears cells. *)
Lemma processCascade_uniform (oracle : Oracle) (k : TokenType) (g : Grid) (n : nat) :
  (forall i, kindDrawn (oracle i) = k) -> uniformGrid k g ->
  exists g' m n',
    processCascade oracle g n = Ok (g', S m, n') /\ uniformGrid k g'.
Proof.
  intros Hdraw [Hg Hk].
  destruct (findMatches_triples g (wfGrid_rows g Hg)) as (ms & E & _ & _ & Hin).
  assert (Hall : forall r c, r < GRID_SIZE -> c < GRID_SIZE -> In (r, c) ms).
  { intros r c Hr Hc. apply Hin. left.
    exists (if c <=? 5 then c else 5). unfold GRID_SIZE in *.
    destruct (Nat.leb_spec c 5); (repeat split; try lia);
      apply tripleHit_kinds; exists k; simpl; repeat split; apply Hk;
      unfold GRID_SIZE; lia. }
  assert (Hne : ms <> []).
  { intro H0. specialize (Hall 0 0 ltac:(unfold GRID_SIZE; lia) ltac:(unfold GRID_SIZE; lia)).
    rewrite H0 in Hall. destruct Hall. }
  destruct (processCascade_settles oracle g n ms Hg E Hne) as (g' & n' & E' & Hwf & Hset).
  destruct ms as [|m0 ms0] eqn:Ems; [congruence|]. rewrite <- Ems in *.
  exists g', (length ms0), n'. split.
  - rewrite E'. rewrite Ems. reflexivity.
  - split; [exact Hwf|]. intros r c Hr Hc.
    destruct (Hset c Hc) as (n0 & Hnew & _).
    assert (Hnil : survivors g ms c = []).
    { unfold survivors. apply tokensUp_none. intros r0 Hr0.
      assert (inb (r0, c) ms = true) as -> by (apply inb_In, Hall; assumption).
      reflexivity. }
    rewrite Hnil in Hnew. cbn [length] in Hnew. rewrite Nat.sub_0_r in Hnew.
    unfold kindAt. rewrite Hnew by exact Hr. simpl. f_equal. apply Hdraw.
Qed.

Lemma cascadeLoop_uniform (oracle : Oracle) (k : TokenType) :
  (forall i, kindDrawn (oracle i) = k) ->
  forall fuel g combo total n,
    uniformGrid k g -> cascadeLoop oracle fuel g combo total n = None.
Proof.
  intros Hdraw. induction fuel as [|fuel IH]; intros g combo total n Hg; [reflexivity|].
  cbn [cascadeLoop].
  destruct (processCascade_uniform oracle k g n Hdraw Hg) as (g' & m & n' & E & Hg').
  rewrite E. cbn [Nat.eqb]. now apply IH.
Qed.

(** C9 as stated fails: on the board of [ETH] tokens, with a random source
    that draws [ETH] at every refill, each step clears the 64 cells and the
    refill restores the board; no amount of fuel lets the loop leave. *)
Lemma cascade_never_ends :
  ~ exists fuel out,
      processCascadingMatches onlyETH fuel ethBoard 0 (inPlay ethBoard 0 19 None)
      = Some out.
Proof.
  intros (fuel & out & H). unfold processCascadingMatches in H.
  rewrite cascadeLoop_ethBoard in H. discriminate.
Qed.

Lemma cascadeLoop_returns_run (oracle : Oracle) (fuel : nat) :
  forall g combo total n out,
    wfGrid g ->
    cascadeLoop oracle fuel g combo total n = Some out ->
    exists cs g' n', cascadeRun oracle g n cs g' n'.
Proof.
  induction fuel as [|fuel IH]; intros g combo total n out Hg H; [discriminate|].
  cbn [cascadeLoop] in H.
  destruct (processCascade_total oracle g n Hg) as (g1 & k & n1 & E & Hg1).
  rewrite E in H. destruct k as [|k]; cbn [Nat.eqb] in H.
  - exists [], g, n1. now apply (run_done oracle g g1 n n1).
  - destruct (IH _ _ _ _ _ Hg1 H) as (cs & g' & n' & Hrun).
    exists (S k :: cs), g', n'. now apply (run_step oracle g g1 g' n k n1 n' cs).
Qed.

(** C9, amended. On an 8x8 grid [processCascadingMatches] runs to completion
    exactly when the successive resolution steps come, after some number of
    clearing steps, to a step that clears no cell, and then the fuel of
    one more step than those suffices; whether they do depends on the
    tokens that the random source draws at the refills. It never throws. *)
Theorem cascade_ends_iff (oracle : Oracle) (g : Grid) (n : nat) (prev : CascadeState) :
  wfGrid g ->
  ((exists fuel out, processCascadingMatches oracle fuel g n prev = Some out) <->
   (exists cs g' n', cascadeRun oracle g n cs g' n')) /\
  (forall cs g' n', cascadeRun oracle g n cs g' n' ->
     forall fuel, length cs < fuel ->
       exists st, processCascadingMatches oracle fuel g n prev = Some (Ok (st, n')) /\
                  grid st = g' /\ isProcessing st = false).
Proof.
  intro Hg.
  assert (Hdone : forall cs g' n', cascadeRun oracle g n cs g' n' ->
     forall fuel, length cs < fuel ->
       exists st, processCascadingMatches oracle fuel g n prev = Some (Ok (st, n')) /\
                  grid st = g' /\ isProcessing st = false).
  { intros cs g' n' Hrun fuel Hfuel. unfold processCascadingMatches.
    rewrite (cascadeLoop_run oracle g g' n n' cs Hrun fuel 0 0 Hfuel).
    eexists. split; [reflexivity|]. split; reflexivity. }
  split; [|exact Hdone]. split.
  - intros (fuel & out & H). unfold processCascadingMatches in H.
    destruct (cascadeLoop oracle fuel g 0 0 n) as [out'|] eqn:E; [|discriminate].
    now apply (cascadeLoop_returns_run oracle fuel g 0%Z 0%Z n out').
  - intros (cs & g' & n' & Hrun).
    destruct (Hdone cs g' n' Hrun (S (length cs)) (Nat.lt_succ_diag_r _)) as (st & H & _).
    exists (S (length cs)). eexists. exact H.
Qed.

Lemma cascade_ends_iff_witness :
  wfGrid comboBoard /\
  ((exists fuel out,
      processCascadingMatches alternating fuel comboBoard 0 (inPlay comboBoard 0 19 None)
      = Some out) <->
   (exists cs g' n', cascadeRun alternating comboBoard 0 cs g' n')) /\
  (forall cs g' n', cascadeRun alternating comboBoard 0 cs g' n' ->
     forall fuel, length cs < fuel ->
       exists st,
         processCascadingMatches alternating fuel comboBoard 0 (inPlay comboBoard 0 19 None)
         = Some (Ok (st, n')) /\
         grid st = g' /\ isProcessing st = false).
Proof.
  split; [board_wf|].
  apply (cascade_ends_iff alternating comboBoard 0 (inPlay comboBoard 0 19 None)).
  board_wf.
Defined.

(* ================================================================== *)
(** * Further properties of the code *)

(* ================================================================== *)
(** ** Keys: printing and parsing *)

Lemma noDash_string_of_uint (d : Decimal.uint) :
  noDash (NilEmpty.string_of_uint d) = true.
Proof. induction d; simpl; auto. Qed.

Lemma split_dash_noDash (s : string) :
  noDash s = true -> split_dash s = [s].
Proof.
  induction s as [|ch s IH]; simpl; [reflexivity|].
  intro H. apply andb_true_iff in H. destruct H as [Hch Hs].
  apply negb_true_iff in Hch. rewrite Hch, (IH Hs). reflexivity.
Qed.

Lemma split_dash_append (s s' : string) :
  noDash s = true ->
  split_dash (s ++ String "-"%char s')%string = s :: split_dash s'.
Proof.
  induction s as [|ch s IH]; simpl.
  - reflexivity.
  - intro H. apply andb_true_iff in H. destruct H as [Hch Hs].
    apply negb_true_iff in Hch. rewrite Hch, (IH Hs). reflexivity.
Qed.

Lemma Number_showNat (n : nat) : Number (showNat n) = Some n.
Proof.
  unfold Number, showNat. rewrite NilEmpty.usu. simpl.
  now rewrite DecimalNat.Unsigned.of_to.
Qed.

(** X1. The key of a slot parses back to the slot, whatever the size of its
    row and column numbers, so that keys of different slots are different
    strings: the [matched] set loses nothing by holding strings. *)
Theorem key_round_trip (r c : nat) :
  parseKey (key r c) = Ok (r, c) /\
  forall r' c', key r c = key r' c' -> r = r' /\ c = c'.
Proof.
  assert (P : forall a b, parseKey (key a b) = Ok (a, b)).
  { intros a b. unfold parseKey, key.
    change (showNat a ++ "-" ++ showNat b)%string
      with (showNat a ++ String "-"%char (showNat b))%string.
    rewrite split_dash_append by apply noDash_string_of_uint.
    rewrite split_dash_noDash by apply noDash_string_of_uint.
    simpl. now rewrite !Number_showNat. }
  split; [apply P|].
  intros r' c' E. apply (f_equal parseKey) in E. rewrite !P in E.
  inversion E. auto.
Qed.

(* ================================================================== *)
(** ** Match detection: errors and size of the result *)

(** X2. [findMatches] throws exactly on the grids of fewer than eight rows, and
    then a [TypeError] (the horizontal scan reads a cell of a missing row);
    rows may be of any length, a missing cell counts as empty. *)
Theorem findMatches_throws_iff (g : Grid) :
  (findMatches g = Throw TypeError <-> length g < GRID_SIZE) /\
  findMatches g <> Throw Untyped.
Proof.
  destruct (Nat.lt_ge_cases (length g) GRID_SIZE) as [Hs|Hg].
  - rewrite (findMatches_short g Hs). split; [tauto | discriminate].
  - destruct (findMatches_triples g Hg) as (ms & E & _). rewrite E.
    split; [|discriminate]. split; [discriminate | lia].
Qed.

Lemma in_allSlots (r c : nat) :
  In (r, c) allSlots <-> r < GRID_SIZE /\ c < GRID_SIZE.
Proof.
  unfold allSlots. rewrite in_prod_iff, !in_seq. lia.
Qed.

Lemma inTriple_three (g : Grid) (r c : nat) :
  inTriple g r c ->
  exists p1 p2 p3,
    NoDup [p1; p2; p3] /\
    inTriple g (fst p1) (snd p1) /\ inTriple g (fst p2) (snd p2) /\
    inTriple g (fst p3) (snd p3).
Proof.
  intros [(c0 & Hc0 & Hc & Hr & Hit)|(r0 & Hr0 & Hr & Hc & Hit)].
  - exists (r, c0), (r, c0 + 1), (r, c0 + 2). split.
    + repeat constructor; simpl; intuition (try congruence);
        match goal with H : (_, _) = (_, _) |- _ => inversion H; lia end.
    + simpl. repeat split; left; exists c0; repeat split; auto; lia.
  - exists (r0, c), (r0 + 1, c), (r0 + 2, c). split.
    + repeat constructor; simpl; intuition (try congruence);
        match goal with H : (_, _) = (_, _) |- _ => inversion H; lia end.
    + simpl. repeat split; right; exists r0; repeat split; auto; lia.
Qed.

Lemma matches_size (g : Grid) (ms : list (nat * nat)) :
  NoDup ms ->
  Forall (fun p => fst p < GRID_SIZE /\ snd p < GRID_SIZE) ms ->
  (forall r c, In (r, c) ms <-> inTriple g r c) ->
  ms = [] \/ 3 <= length ms <= GRID_SIZE * GRID_SIZE.
Proof.
  intros Hnd Hrange Hin.
  destruct ms as [|[r c] rest] eqn:Ems; [left; reflexivity|right].
  rewrite <- Ems in *. split.
  - assert (In (r, c) ms) as H0 by (rewrite Ems; left; reflexivity).
    apply Hin, inTriple_three in H0.
    destruct H0 as ([r1 c1] & [r2 c2] & [r3 c3] & Hd & H1 & H2 & H3). simpl in *.
    apply (NoDup_incl_length Hd).
    intros p [<-|[<-|[<-|[]]]]; now apply Hin.
  - change (GRID_SIZE * GRID_SIZE) with (length allSlots).
    apply (NoDup_incl_length Hnd).
    intros [r' c'] H. apply in_allSlots.
    rewrite Forall_forall in Hrange. apply (Hrange (r', c') H).
Qed.

(** X3. What [findMatches] returns holds no slot twice, only slots of the 8x8
    window, and either nothing or between 3 and 64 of them. *)
Theorem findMatches_size (g : Grid) (ms : list (nat * nat)) :
  findMatches g = Ok ms ->
  NoDup ms /\
  (forall r c, In (r, c) ms -> r < GRID_SIZE /\ c < GRID_SIZE) /\
  (ms = [] \/ 3 <= length ms <= GRID_SIZE * GRID_SIZE).
Proof.
  intro E.
  destruct (Nat.lt_ge_cases (length g) GRID_SIZE) as [Hs|Hg].
  { rewrite findMatches_short in E by exact Hs. discriminate. }
  destruct (findMatches_triples g Hg) as (ms' & E' & Hnd & Hrange & Hin).
  rewrite E in E'. inversion E'; subst ms'; clear E'.
  split; [exact Hnd|]. split.
  { intros r c H. rewrite Forall_forall in Hrange. apply (Hrange (r, c) H). }
  now apply (matches_size g).
Qed.

Lemma findMatches_size_witness :
  findMatches tripleBoard = Ok [(3, 2); (3, 3); (3, 4)] /\
  NoDup [(3, 2); (3, 3); (3, 4)] /\
  (forall r c, In (r, c) [(3, 2); (3, 3); (3, 4)] -> r < GRID_SIZE /\ c < GRID_SIZE) /\
  ([(3, 2); (3, 3); (3, 4)] = [] \/
   3 <= length [(3, 2); (3, 3); (3, 4)] <= GRID_SIZE * GRID_SIZE).
Proof.
  split; [reflexivity|].
  apply (findMatches_size tripleBoard [(3, 2); (3, 3); (3, 4)]). reflexivity.
Defined.

(** The count that a resolution step returns is the number of slots that
    [findMatches] found: 0 exactly when it found none, and else between 3
    and 64. *)
Lemma processCascade_count (oracle : Oracle) (g g' : Grid) (n k n' : nat) :
  processCascade oracle g n = Ok (g', k, n') ->
  exists ms, findMatches g = Ok ms /\ k = length ms /\
             (k = 0 \/ 3 <= k <= GRID_SIZE * GRID_SIZE).
Proof.
  intro H. unfold processCascade in H.
  destruct (findMatches g) as [ms|e] eqn:E; [|discriminate].
  cbn [bind] in H. exists ms. split; [reflexivity|].
  assert (Hsize : ms = [] \/ 3 <= length ms <= GRID_SIZE * GRID_SIZE).
  { destruct (Nat.lt_ge_cases (length g) GRID_SIZE) as [Hs|Hg].
    { rewrite findMatches_short in E by exact Hs. discriminate. }
    destruct (findMatches_triples g Hg) as (ms' & E' & Hnd & Hrange & Hin).
    rewrite E in E'. inversion E'; subst ms'. now apply (matches_size g). }
  destruct (length ms =? 0) eqn:E0.
  - apply Nat.eqb_eq in E0. inversion H; subst. split; [now rewrite E0 | now left].
  - destruct (clearMatches ms g) as [g1|e]; [|discriminate]. cbn [bind] in H.
    destruct (forM (seq 0 GRID_SIZE) (settleColumn oracle) (g1, n)) as [[g2 n2]|e];
      [|discriminate].
    cbn [bind] in H. inversion H; subst. split; [reflexivity|].
    destruct Hsize as [->|Hsize]; [discriminate | now right].
Qed.

(* ================================================================== *)
(** ** The cascade loop: what it leaves *)

Lemma cascadeLoop_leaves (oracle : Oracle) (fuel : nat) :
  forall g combo total n g' combo' total' n',
    cascadeLoop oracle fuel g combo total n = Some (Ok (g', combo', total', n')) ->
    (0 <= combo)%Z ->
    findMatches g' = Ok [] /\
    (combo <= combo')%Z /\
    (15 * (combo' * (combo' + 1) - combo * (combo + 1)) <= total' - total)%Z /\
    (total' - total <= 320 * (combo' * (combo' + 1) - combo * (combo + 1)))%Z /\
    (exists q, total' - total = 10 * q)%Z /\
    (combo' = combo -> total' = total).
Proof.
  induction fuel as [|fuel IH]; intros g combo total n g' combo' total' n' H Hc;
    [discriminate|].
  cbn [cascadeLoop] in H.
  destruct (processCascade oracle g n) as [[[g1 k] n1]|e] eqn:E; [|discriminate].
  destruct (processCascade_count oracle g g1 n k n1 E) as (ms & Ems & Hk & Hsize).
  destruct k as [|k]; cbn [Nat.eqb] in H.
  - inversion H; subst. symmetry in Hk. apply length_zero_iff_nil in Hk. subst ms.
    split; [exact Ems|]. split; [lia|]. split; [lia|]. split; [lia|].
    split; [exists 0%Z; lia | reflexivity].
  - destruct Hsize as [Hz|Hsize]; [discriminate|]. unfold GRID_SIZE in Hsize.
    apply IH in H; [|lia].
    destruct H as (Hstable & Hle & Hlow & Hhigh & (q & Hq) & _).
    split; [exact Hstable|]. split; [lia|]. split; [nia|]. split; [nia|].
    split; [exists (q + Z.of_nat (S k) * (combo + 1))%Z; lia | lia].
Qed.

(** X4. When [processCascadingMatches] completes, on whatever grid and state,
    the grid it stores has no match left, processing is off and the
    selection is the one of the state it updated. *)
Theorem cascade_leaves_stable_board (oracle : Oracle) (fuel : nat) (g0 : Grid)
    (n n' : nat) (prev st : CascadeState) :
  processCascadingMatches oracle fuel g0 n prev = Some (Ok (st, n')) ->
  findMatches (grid st) = Ok [] /\
  isProcessing st = false /\
  selectedToken st = selectedToken prev.
Proof.
  unfold processCascadingMatches.
  destruct (cascadeLoop oracle fuel g0 0 0 n) as [[[[[g combo] total] m]|e]|] eqn:E;
    try discriminate.
  intro H. inversion H; subst st n'; clear H.
  apply cascadeLoop_leaves in E; [|lia].
  destruct E as (Hstable & _). simpl. auto.
Qed.

Lemma cascade_leaves_stable_board_witness :
  exists st,
    processCascadingMatches alternating 3 comboBoard 0 (inPlay comboBoard 0 19 None)
    = Some (Ok (st, 7)) /\
    findMatches (grid st) = Ok [] /\
    isProcessing st = false /\
    selectedToken st = None.
Proof.
  eexists. split; [vm_compute; reflexivity|].
  eapply (cascade_leaves_stable_board alternating 3 comboBoard 0 7
            (inPlay comboBoard 0 19 None)).
  vm_compute. reflexivity.
Defined.

(** X5. The points of a completed cascade: with [k] the combo it stores, the
    score has grown by a multiple of 10 that lies between [15 k (k + 1)]
    (three cells at each step) and [320 k (k + 1)] (the whole board at
    each step); the score is unchanged exactly when the combo is 0. *)
Theorem cascade_gain_bounds (oracle : Oracle) (fuel : nat) (g0 : Grid)
    (n n' : nat) (prev st : CascadeState) :
  processCascadingMatches oracle fuel g0 n prev = Some (Ok (st, n')) ->
  let k := cascadeCombo st in
  (0 <= k)%Z /\
  (15 * (k * (k + 1)) <= score st - score prev <= 320 * (k * (k + 1)))%Z /\
  (exists q, score st - score prev = 10 * q)%Z /\
  (k = 0%Z <-> score st = score prev).
Proof.
  unfold processCascadingMatches.
  destruct (cascadeLoop oracle fuel g0 0 0 n) as [[[[[g combo] total] m]|e]|] eqn:E;
    try discriminate.
  intro H. inversion H; subst st n'; clear H.
  apply cascadeLoop_leaves in E; [|lia].
  destruct E as (_ & Hle & Hlow & Hhigh & (q & Hq) & Hsame).
  cbn [finishCascade cascadeCombo score].
  destruct (Z.ltb_spec 0 total) as [Hpos|Hzero].
  - split; [lia|]. split; [lia|]. split; [exists q; lia|].
    split; [|lia]. intros ->. specialize (Hsame eq_refl). lia.
  - assert (combo = 0%Z) by nia. subst combo.
    split; [lia|]. split; [lia|]. split; [exists q; lia|]. split; [nia | reflexivity].
Qed.

Lemma cascade_gain_bounds_witness :
  exists st,
    processCascadingMatches alternating 3 comboBoard 0 (inPlay comboBoard 0 19 None)
    = Some (Ok (st, 7)) /\
    (0 <= cascadeCombo st)%Z /\
    (15 * (cascadeCombo st * (cascadeCombo st + 1)) <= score st - 0
     <= 320 * (cascadeCombo st * (cascadeCombo st + 1)))%Z /\
    (exists q, score st - 0 = 10 * q)%Z /\
    (cascadeCombo st = 0%Z <-> score st = 0%Z).
Proof.
  eexists. split; [vm_compute; reflexivity|].
  eapply (cascade_gain_bounds alternating 3 comboBoard 0 7
            (inPlay comboBoard 0 19 None)).
  vm_compute. reflexivity.
Defined.

(** X6. A cascade started on a grid without match (one step of fuel is enough)
    stores that grid, adds no point and sets the combo to 0. *)
Theorem cascade_on_stable_board (oracle : Oracle) (fuel : nat) (g : Grid)
    (n : nat) (prev : CascadeState) :
  findMatches g = Ok [] ->
  exists st,
    processCascadingMatches oracle (S fuel) g n prev = Some (Ok (st, n)) /\
    grid st = g /\ score st = score prev /\ cascadeCombo st = 0%Z /\
    isProcessing st = false.
Proof.
  intro E. unfold processCascadingMatches. cbn [cascadeLoop].
  rewrite (processCascade_unmatched oracle g n E). cbn [Nat.eqb].
  eexists. split; [reflexivity|]. simpl. rewrite Z.add_0_r. auto.
Qed.

Lemma cascade_on_stable_board_witness :
  findMatches gapBoard = Ok [] /\
  exists st,
    processCascadingMatches alternating 1 gapBoard 0 (inPlay gapBoard 50 19 None)
    = Some (Ok (st, 0)) /\
    grid st = gapBoard /\ score st = 50%Z /\ cascadeCombo st = 0%Z /\
    isProcessing st = false.
Proof.
  split; [reflexivity|].
  apply (cascade_on_stable_board alternating 0 gapBoard 0 (inPlay gapBoard 50 19 None)).
  reflexivity.
Defined.

(** X7. Unless the state it updates is [playing] and the new score has reached
    its target score, the end of a cascade leaves status, level, target
    score and moves as they are; in particular a state already [gameOver]
    stays so whatever the cascade adds to the score. *)
Theorem cascade_keeps_level (oracle : Oracle) (fuel : nat) (g0 : Grid)
    (n n' : nat) (prev st : CascadeState) :
  processCascadingMatches oracle fuel g0 n prev = Some (Ok (st, n')) ->
  gameStatus prev <> playing \/ (score st < targetScore prev)%Z ->
  gameStatus st = gameStatus prev /\
  level st = level prev /\
  targetScore st = targetScore prev /\
  moves st = moves prev.
Proof.
  unfold processCascadingMatches.
  destruct (cascadeLoop oracle fuel g0 0 0 n) as [[[[[g combo] total] m]|e]|];
    try discriminate.
  intros H Hcase. inversion H; subst st n'; clear H.
  cbn [finishCascade score gameStatus level targetScore moves] in *.
  assert ((targetScore prev <=? score prev + total)%Z
          && GameStatus_eqb (gameStatus prev) playing = false) as ->.
  { destruct Hcase as [Hst|Hlt].
    - destruct (gameStatus prev); try congruence; apply andb_false_r.
    - destruct (Z.leb_spec (targetScore prev) (score prev + total)); [lia|reflexivity]. }
  rewrite Qfloor_Z. auto.
Qed.

Lemma cascade_keeps_level_witness :
  exists st,
    processCascadingMatches alternating 2 tripleBoard 0
      (inPlay tripleBoard 100 19 None) = Some (Ok (st, 3)) /\
    (gameStatus (inPlay tripleBoard 100 19 None) <> playing \/ (score st < 1000)%Z) /\
    gameStatus st = playing /\ level st = 1%Z /\
    targetScore st = 1000%Z /\ moves st = 19%Z.
Proof.
  eexists. split; [vm_compute; reflexivity|].
  split; [right; vm_compute; reflexivity|].
  eapply (cascade_keeps_level alternating 2 tripleBoard 0 3
            (inPlay tripleBoard 100 19 None)).
  - vm_compute. reflexivity.
  - right. vm_compute. reflexivity.
Defined.

(* ================================================================== *)
(** ** Grid generation *)

Lemma createInitialGrid_get (oracle : Oracle) (n r c : nat) :
  r < GRID_SIZE -> c < GRID_SIZE ->
  get (fst (createInitialGrid oracle n)) r c
  = Some (freshToken oracle (8 * r + c + n) r c false).
Proof.
  unfold GRID_SIZE. intros Hr Hc.
  do 8 (destruct r as [|r]; [do 8 (destruct c as [|c]; [reflexivity|]); lia|]).
  lia.
Qed.

(** X8. [createInitialGrid] reads 64 draws and returns an 8x8 grid without
    empty slot: slot [(r, c)] holds the token made from draw number
    [8 r + c], its kind the kind drawn, its position the slot, not matched,
    not falling. *)
Theorem createInitialGrid_content (oracle : Oracle) (n : nat) :
  wfGrid (fst (createInitialGrid oracle n)) /\
  fullGrid (fst (createInitialGrid oracle n)) /\
  snd (createInitialGrid oracle n) = 64 + n /\
  forall r c, r < GRID_SIZE -> c < GRID_SIZE ->
    exists t,
      get (fst (createInitialGrid oracle n)) r c = Some t /\
      type t = kindDrawn (oracle (8 * r + c + n)) /\
      row t = r /\ col t = c /\ isMatched t = false /\ isFalling t = false.
Proof.
  split; [apply createInitialGrid_ok|]. split; [|split].
  - intros r c Hr Hc. rewrite createInitialGrid_get by assumption. discriminate.
  - vm_compute. reflexivity.
  - intros r c Hr Hc. eexists. split; [now apply createInitialGrid_get|].
    repeat split.
Qed.

Lemma append_String (s : string) (ch : ascii) (s' : string) :
  ((s ++ String ch EmptyString) ++ s')%string = (s ++ String ch s')%string.
Proof. induction s as [|a s IH]; simpl; [reflexivity | now rewrite IH]. Qed.

Lemma append_assoc_string (s1 s2 s3 : string) :
  ((s1 ++ s2) ++ s3)%string = (s1 ++ s2 ++ s3)%string.
Proof. induction s1 as [|a s IH]; simpl; [reflexivity | now rewrite IH]. Qed.

(** The id of a new token starts with the key of the slot it is made for:
    its first two fields parse back to that slot, whatever text the clock
    and the random number add. *)
Lemma freshToken_id_slot (oracle : Oracle) (n r c : nat) (falling : bool) :
  parseKey (id (freshToken oracle n r c falling)) = Ok (r, c).
Proof.
  unfold parseKey, freshToken, id, key.
  rewrite append_assoc_string.
  change (showNat r ++ ("-" ++ showNat c) ++ "-" ++ stamp (oracle n))%string
    with (showNat r ++ String "-"%char (showNat c ++ String "-"%char (stamp (oracle n))))%string.
  rewrite split_dash_append by apply noDash_string_of_uint.
  rewrite split_dash_append by apply noDash_string_of_uint.
  simpl. now rewrite !Number_showNat.
Qed.

(** X9. The tokens of the initial grid have pairwise different ids (the keys
    under which the screen lists them), whatever the random source. *)
Theorem createInitialGrid_ids_distinct (oracle : Oracle) (n r c r' c' : nat)
    (t t' : Token) :
  get (fst (createInitialGrid oracle n)) r c = Some t ->
  get (fst (createInitialGrid oracle n)) r' c' = Some t' ->
  (r, c) <> (r', c') ->
  id t <> id t'.
Proof.
  intros Ht Ht' Hne Hid.
  destruct (createInitialGrid_ok oracle n) as (Hwf & _).
  pose proof (createInitialGrid_get oracle n) as Hget.
  assert (Hin : forall a b v, get (fst (createInitialGrid oracle n)) a b = Some v ->
                              a < GRID_SIZE /\ b < GRID_SIZE).
  { intros a b v Hv.
    destruct (Nat.lt_ge_cases a GRID_SIZE) as [Ha|Ha];
      [|rewrite get_outside in Hv by auto; discriminate].
    destruct (Nat.lt_ge_cases b GRID_SIZE) as [Hb|Hb];
      [|rewrite get_outside in Hv by auto; discriminate].
    auto. }
  destruct (Hin _ _ _ Ht) as [Hr Hc]. destruct (Hin _ _ _ Ht') as [Hr' Hc'].
  rewrite Hget in Ht, Ht' by assumption.
  assert (Et : t = freshToken oracle (8 * r + c + n) r c false) by congruence.
  assert (Et' : t' = freshToken oracle (8 * r' + c' + n) r' c' false) by congruence.
  rewrite Et, Et' in Hid. apply (f_equal parseKey) in Hid.
  rewrite !freshToken_id_slot in Hid. inversion Hid. congruence.
Qed.

Lemma createInitialGrid_ids_distinct_witness :
  get (fst (createInitialGrid onlyETH 0)) 0 0 = Some (freshToken onlyETH 0 0 0 false) /\
  get (fst (createInitialGrid onlyETH 0)) 0 1 = Some (freshToken onlyETH 1 0 1 false) /\
  (0, 0) <> (0, 1) /\
  id (freshToken onlyETH 0 0 0 false) <> id (freshToken onlyETH 1 0 1 false).
Proof.
  split; [reflexivity|]. split; [reflexivity|]. split; [discriminate|].
  apply (createInitialGrid_ids_distinct onlyETH 0 0 0 0 1);
    [reflexivity | reflexivity | discriminate].
Defined.

(** X10. [createInitialGrid] does nothing to avoid matches: wherever the draws
    of three consecutive slots of a row, or of a column, are of one kind,
    [findMatches] finds those three slots in the grid it returns. *)
Theorem createInitialGrid_keeps_matches (oracle : Oracle) (n r c : nat) :
  r < GRID_SIZE -> c < GRID_SIZE ->
  exists ms,
    findMatches (fst (createInitialGrid oracle n)) = Ok ms /\
    (c + 2 < GRID_SIZE ->
     kindDrawn (oracle (8 * r + c + n)) = kindDrawn (oracle (8 * r + (c + 1) + n)) ->
     kindDrawn (oracle (8 * r + (c + 1) + n)) = kindDrawn (oracle (8 * r + (c + 2) + n)) ->
     In (r, c) ms /\ In (r, c + 1) ms /\ In (r, c + 2) ms) /\
    (r + 2 < GRID_SIZE ->
     kindDrawn (oracle (8 * r + c + n)) = kindDrawn (oracle (8 * (r + 1) + c + n)) ->
     kindDrawn (oracle (8 * (r + 1) + c + n)) = kindDrawn (oracle (8 * (r + 2) + c + n)) ->
     In (r, c) ms /\ In (r + 1, c) ms /\ In (r + 2, c) ms).
Proof.
  intros Hr Hc.
  destruct (createInitialGrid_ok oracle n) as (Hwf & _).
  pose proof (createInitialGrid_get oracle n) as Hget.
  destruct (findMatches_triples _ (wfGrid_rows _ Hwf)) as (ms & E & _ & _ & Hin).
  exists ms. split; [exact E|]. unfold GRID_SIZE in *. split.
  - intros Hfit E1 E2.
    assert (tripleHit (fst (createInitialGrid oracle n)) (r, c) (r, c + 1) (r, c + 2) = true)
      as Hit.
    { unfold tripleHit. cbn [fst snd].
      rewrite !Hget by (unfold GRID_SIZE; lia). cbn [type freshToken].
      rewrite E1, E2. apply andb_true_iff. split; now apply TokenType_eqb_eq. }
    repeat split; apply Hin; left; exists c; unfold GRID_SIZE;
      (repeat split; try lia; exact Hit).
  - intros Hfit E1 E2.
    assert (tripleHit (fst (createInitialGrid oracle n)) (r, c) (r + 1, c) (r + 2, c) = true)
      as Hit.
    { unfold tripleHit. cbn [fst snd].
      rewrite !Hget by (unfold GRID_SIZE; lia). cbn [type freshToken].
      rewrite E1, E2. apply andb_true_iff. split; now apply TokenType_eqb_eq. }
    repeat split; apply Hin; right; exists r; unfold GRID_SIZE;
      (repeat split; try lia; exact Hit).
Qed.

Lemma createInitialGrid_keeps_matches_witness :
  0 < GRID_SIZE /\ 0 < GRID_SIZE /\
  exists ms,
    findMatches (fst (createInitialGrid onlyETH 0)) = Ok ms /\
    (0 + 2 < GRID_SIZE ->
     kindDrawn (onlyETH (8 * 0 + 0 + 0)) = kindDrawn (onlyETH (8 * 0 + (0 + 1) + 0)) ->
     kindDrawn (onlyETH (8 * 0 + (0 + 1) + 0)) = kindDrawn (onlyETH (8 * 0 + (0 + 2) + 0)) ->
     In (0, 0) ms /\ In (0, 0 + 1) ms /\ In (0, 0 + 2) ms) /\
    (0 + 2 < GRID_SIZE ->
     kindDrawn (onlyETH (8 * 0 + 0 + 0)) = kindDrawn (onlyETH (8 * (0 + 1) + 0 + 0)) ->
     kindDrawn (onlyETH (8 * (0 + 1) + 0 + 0)) = kindDrawn (onlyETH (8 * (0 + 2) + 0 + 0)) ->
     In (0, 0) ms /\ In (0 + 1, 0) ms /\ In (0 + 2, 0) ms).
Proof.
  split; [unfold GRID_SIZE; lia|]. split; [unfold GRID_SIZE; lia|].
  apply (createInitialGrid_keeps_matches onlyETH 0 0 0); unfold GRID_SIZE; lia.
Defined.

(* ================================================================== *)
(** ** Adjacency and the exchange of two tokens *)

Lemma isAdjacent_manhattan (sel : nat * nat) (r c : nat) :
  isAdjacent sel r c = true <->
  (Z.abs (Z.of_nat (fst sel) - Z.of_nat r)
   + Z.abs (Z.of_nat (snd sel) - Z.of_nat c) = 1)%Z.
Proof.
  unfold isAdjacent. cbn [fst snd].
  rewrite orb_true_iff, !andb_true_iff, !Z.eqb_eq. lia.
Qed.

(** X11. Two cells are adjacent exactly when they are one step apart in a row
    or in a column; adjacency does not depend on the order of the two
    cells, and no cell is adjacent to itself. *)
Theorem isAdjacent_spec (sel : nat * nat) (r c : nat) :
  (isAdjacent sel r c = true <->
   (Z.abs (Z.of_nat (fst sel) - Z.of_nat r)
    + Z.abs (Z.of_nat (snd sel) - Z.of_nat c) = 1)%Z) /\
  isAdjacent sel r c = isAdjacent (r, c) (fst sel) (snd sel) /\
  isAdjacent (r, c) r c = false.
Proof.
  split; [apply isAdjacent_manhattan|]. unfold isAdjacent. cbn [fst snd]. split.
  - rewrite <- (Z.abs_opp (Z.of_nat (fst sel) - Z.of_nat r)).
    rewrite <- (Z.abs_opp (Z.of_nat (snd sel) - Z.of_nat c)).
    now rewrite !Z.opp_sub_distr, !Z.add_opp_l.
  - rewrite !Z.sub_diag. reflexivity.
Qed.

Lemma get_restamp (g : Grid) (r c r' c' : nat) :
  wfGrid g -> r < GRID_SIZE -> c < GRID_SIZE ->
  get (restamp g r c) r' c'
  = if (r' =? r) && (c' =? c)
    then option_map (fun t => moveTo t r c) (get g r c)
    else get g r' c'.
Proof.
  intros Hg Hr Hc. unfold restamp.
  destruct (get g r c) as [t|] eqn:E.
  - rewrite get_put by assumption. now destruct ((r' =? r) && (c' =? c)).
  - destruct ((r' =? r) && (c' =? c)) eqn:Eq; [|reflexivity].
    apply andb_true_iff in Eq. destruct Eq as [E1 E2].
    apply Nat.eqb_eq in E1, E2. subst. exact E.
Qed.



Lemma swapTokens_get (g g' : Grid) (r c : nat) (sel : nat * nat) :
  wfGrid g -> swapTokens g r c sel = Ok g' -> (r, c) <> sel ->
  get g' r c = option_map (fun t => moveTo t r c) (get g (fst sel) (snd sel)) /\
  get g' (fst sel) (snd sel)
  = option_map (fun t => moveTo t (fst sel) (snd sel)) (get g r c) /\
  forall r' c', (r', c') <> (r, c) -> (r', c') <> sel -> get g' r' c' = get g r' c'.
Proof.
  intros Hg H Hne. destruct sel as [sr sc]. cbn [fst snd] in *.
  destruct (swapTokens_wf g g' r c (sr, sc) Hg H) as (Hr & Hc & Hsr & Hsc & ->).
  cbn [fst snd] in *.
  set (g2 := put (put g r c (get g sr sc)) sr sc (get g r c)).
  assert (Hg2 : wfGrid g2) by (unfold g2; apply wfGrid_put, wfGrid_put, Hg).
  assert (Hg3 : wfGrid (restamp g2 r c)) by now apply restamp_ok.
  assert (Hget2 : forall r' c', get g2 r' c' =
            if (r' =? sr) && (c' =? sc) then get g r c
            else if (r' =? r) && (c' =? c) then get g sr sc else get g r' c').
  { intros r' c'. unfold g2.
    rewrite get_put by (try apply wfGrid_put; assumption).
    rewrite get_put by assumption. reflexivity. }
  assert (Hdiff : (r =? sr) && (c =? sc) = false).
  { apply andb_false_iff.
    destruct (Nat.eqb_spec r sr); [right|left; reflexivity].
    destruct (Nat.eqb_spec c sc); [subst; congruence | reflexivity]. }
  assert (Hdiff' : (sr =? r) && (sc =? c) = false)
    by (rewrite (Nat.eqb_sym sr r), (Nat.eqb_sym sc c); exact Hdiff).
  split; [|split].
  - rewrite get_restamp by assumption. rewrite Hdiff.
    rewrite get_restamp by assumption. rewrite !Nat.eqb_refl. cbn [andb].
    rewrite Hget2, Hdiff, !Nat.eqb_refl. reflexivity.
  - rewrite get_restamp by assumption. rewrite !Nat.eqb_refl. cbn [andb].
    rewrite get_restamp by assumption. rewrite Hdiff'.
    rewrite Hget2, !Nat.eqb_refl. reflexivity.
  - intros r' c' N1 N2.
    assert ((r' =? r) && (c' =? c) = false) as E1.
    { apply andb_false_iff.
      destruct (Nat.eqb_spec r' r); [right|left; reflexivity].
      destruct (Nat.eqb_spec c' c); [subst; congruence | reflexivity]. }
    assert ((r' =? sr) && (c' =? sc) = false) as E2.
    { apply andb_false_iff.
      destruct (Nat.eqb_spec r' sr); [right|left; reflexivity].
      destruct (Nat.eqb_spec c' sc); [subst; congruence | reflexivity]. }
    rewrite get_restamp by assumption. rewrite E2.
    rewrite get_restamp by assumption. rewrite E1.
    now rewrite Hget2, E2, E1.
Qed.

(** X13. The exchange of two different cells of an 8x8 grid: each of the two
    slots receives the cell of the other, a token rewritten with the row
    and column of the slot it arrives in; every other slot is as before;
    so a grid without empty slot stays one. *)
Theorem swapTokens_exchanges (g g' : Grid) (r c : nat) (sel : nat * nat) :
  wfGrid g -> swapTokens g r c sel = Ok g' -> (r, c) <> sel ->
  wfGrid g' /\
  get g' r c = option_map (fun t => moveTo t r c) (get g (fst sel) (snd sel)) /\
  get g' (fst sel) (snd sel)
  = option_map (fun t => moveTo t (fst sel) (snd sel)) (get g r c) /\
  (forall r' c', (r', c') <> (r, c) -> (r', c') <> sel -> get g' r' c' = get g r' c') /\
  (fullGrid g -> fullGrid g').
Proof.
  intros Hg H Hne.
  destruct (swapTokens_wf g g' r c sel Hg H) as (Hr & Hc & Hsr & Hsc & _).
  destruct (swapTokens_total g r c sel Hg Hr Hc Hsr Hsc) as (g1 & E1 & Hwf).
  assert (g1 = g') by congruence. subst g1.
  destruct (swapTokens_get g g' r c sel Hg H Hne) as (A1 & A2 & A3).
  split; [exact Hwf|]. split; [exact A1|]. split; [exact A2|]. split; [exact A3|].
  intros Hfull r' c' Hr' Hc'. destruct sel as [sr sc]. cbn [fst snd] in *.
  assert (Hcase : (r', c') = (r, c) \/ (r', c') = (sr, sc) \/
                  ((r', c') <> (r, c) /\ (r', c') <> (sr, sc))).
  { destruct (Nat.eq_dec r' r), (Nat.eq_dec c' c), (Nat.eq_dec r' sr),
      (Nat.eq_dec c' sc); subst; auto; right; right; split; congruence. }
  destruct Hcase as [E|[E|[N1 N2]]].
  - inversion E; subst. rewrite A1. specialize (Hfull _ _ Hsr Hsc).
    destruct (get g sr sc); [discriminate | congruence].
  - inversion E; subst. rewrite A2. specialize (Hfull _ _ Hr Hc).
    destruct (get g r c); [discriminate | congruence].
  - rewrite A3 by assumption. now apply Hfull.
Qed.

Lemma swapTokens_exchanges_witness :
  exists g',
    wfGrid swapBoard /\ swapTokens swapBoard 3 4 (4, 4) = Ok g' /\ (3, 4) <> (4, 4) /\
    wfGrid g' /\
    get g' 3 4 = option_map (fun t => moveTo t 3 4) (get swapBoard 4 4) /\
    get g' 4 4 = option_map (fun t => moveTo t 4 4) (get swapBoard 3 4) /\
    (forall r' c', (r', c') <> (3, 4) -> (r', c') <> (4, 4) ->
                   get g' r' c' = get swapBoard r' c') /\
    (fullGrid swapBoard -> fullGrid g').
Proof.
  eexists. split; [board_wf|]. split; [vm_compute; reflexivity|].
  split; [discriminate|].
  eapply (swapTokens_exchanges swapBoard _ 3 4 (4, 4));
    [board_wf | vm_compute; reflexivity | discriminate].
Defined.

Lemma grid_ext (g1 g2 : Grid) :
  wfGrid g1 -> wfGrid g2 ->
  (forall r c, r < GRID_SIZE -> c < GRID_SIZE -> get g1 r c = get g2 r c) ->
  g1 = g2.
Proof.
  intros Hg1 Hg2 Hget. apply nth_error_ext. intro r.
  destruct (Nat.lt_ge_cases r GRID_SIZE) as [Hr|Hr].
  - destruct (wfGrid_row g1 r Hg1 Hr) as (l1 & E1 & Hl1).
    destruct (wfGrid_row g2 r Hg2 Hr) as (l2 & E2 & Hl2).
    rewrite E1, E2. f_equal. apply nth_error_ext. intro c.
    destruct (Nat.lt_ge_cases c GRID_SIZE) as [Hc|Hc].
    + specialize (Hget r c Hr Hc). unfold get in Hget. rewrite E1, E2 in Hget.
      destruct (nth_error l1 c) as [v1|] eqn:N1;
        [|apply nth_error_None in N1; lia].
      destruct (nth_error l2 c) as [v2|] eqn:N2;
        [|apply nth_error_None in N2; lia].
      now subst.
    + assert (nth_error l1 c = None) as -> by (apply nth_error_None; lia).
      symmetry. apply nth_error_None. lia.
  - destruct Hg1 as [L1 _], Hg2 as [L2 _].
    assert (nth_error g1 r = None) as -> by (apply nth_error_None; lia).
    symmetry. apply nth_error_None. lia.
Qed.

Lemma moveTo_back (t : Token) (r c : nat) :
  moveTo (moveTo t r c) (row t) (col t) = t.
Proof. destruct t; reflexivity. Qed.

(** X14. On an 8x8 grid whose tokens store their slots, exchanging two
    different cells and then the same two cells again gives back the grid
    as it was. *)
Theorem swapTokens_twice (g g' : Grid) (r c : nat) (sel : nat * nat) :
  wfGrid g -> positionsOK g -> swapTokens g r c sel = Ok g' -> (r, c) <> sel ->
  swapTokens g' r c sel = Ok g.
Proof.
  intros Hg Hok H Hne.
  destruct (swapTokens_wf g g' r c sel Hg H) as (Hr & Hc & Hsr & Hsc & _).
  assert (Hwf' : wfGrid g').
  { destruct (swapTokens_total g r c sel Hg Hr Hc Hsr Hsc) as (g1 & E1 & Hwf).
    congruence. }
  destruct (swapTokens_total g' r c sel Hwf' Hr Hc Hsr Hsc) as (g2 & E2 & Hg2).
  rewrite E2. f_equal.
  destruct (swapTokens_get g g' r c sel Hg H Hne) as (A1 & A2 & A3).
  destruct (swapTokens_get g' g2 r c sel Hwf' E2 Hne) as (B1 & B2 & B3).
  destruct sel as [sr sc]. cbn [fst snd] in *.
  apply grid_ext; [exact Hg2 | exact Hg|]. intros r' c' Hr' Hc'.
  destruct (Nat.eq_dec r' r) as [E1|N1]; [destruct (Nat.eq_dec c' c) as [E1'|N1']|];
    (destruct (Nat.eq_dec r' sr) as [E3|N3]; [destruct (Nat.eq_dec c' sc) as [E3'|N3']|]);
    subst; try congruence;
    match goal with
    | |- get g2 ?a ?b = get g ?a ?b =>
        first
          [ rewrite B3, A3 by congruence; reflexivity
          | rewrite B1, A2; destruct (get g a b) as [t|] eqn:Et; [|reflexivity];
            destruct (Hok _ _ t Et) as [<- <-]; simpl; now rewrite moveTo_back
          | rewrite B2, A1; destruct (get g a b) as [t|] eqn:Et; [|reflexivity];
            destruct (Hok _ _ t Et) as [<- <-]; simpl; now rewrite moveTo_back ]
    end.
Qed.

Lemma swapTokens_twice_witness :
  exists g',
    wfGrid swapBoard /\ positionsOK swapBoard /\
    swapTokens swapBoard 3 4 (4, 4) = Ok g' /\ (3, 4) <> (4, 4) /\
    swapTokens g' 3 4 (4, 4) = Ok swapBoard.
Proof.
  eexists. split; [board_wf|].
  split; [apply positionsOKb_sound; [board_wf | reflexivity]|].
  split; [vm_compute; reflexivity|]. split; [discriminate|].
  eapply (swapTokens_twice swapBoard _ 3 4 (4, 4)).
  - board_wf.
  - apply positionsOKb_sound; [board_wf | reflexivity].
  - vm_compute. reflexivity.
  - discriminate.
Defined.

(* ================================================================== *)
(** ** The click handler: what a click can change *)

Lemma click_commit_processing (cascadeState prev : CascadeState) (r c : nat)
    (out : ClickOutcome) (g' : Grid) :
  handleTokenClick cascadeState r c prev = Ok out ->
  cascadeOn out = Some g' ->
  isProcessing (nextState out) = true.
Proof.
  unfold handleTokenClick.
  destruct (isProcessing cascadeState
            || negb (GameStatus_eqb (gameStatus cascadeState) playing));
    [intro H; inversion H; discriminate|].
  destruct (selectedToken cascadeState) as [sel|];
    [|intro H; inversion H; discriminate].
  destruct (isAdjacent sel r c); [|intro H; inversion H; discriminate].
  destruct (swapTokens (grid prev) r c sel) as [g1|e]; [|discriminate].
  cbn [bind]. destruct (findMatches g1) as [ms|e]; [|discriminate].
  cbn [bind]. destruct (0 <? length ms); intro H; inversion H; [reflexivity|discriminate].
Qed.

(** X15. Whatever a click does, it leaves score, level, target score and combo
    alone. When it starts no cascade it leaves grid, moves, status and the
    processing flag alone as well; when it starts one, on a grid [g'], that
    grid has a match and is the grid of the new state, one move is taken,
    the selection is cleared, processing is on, and the status is the
    former one or [gameOver]. *)
Theorem click_frame (cascadeState prev : CascadeState) (r c : nat)
    (out : ClickOutcome) :
  handleTokenClick cascadeState r c prev = Ok out ->
  score (nextState out) = score prev /\
  level (nextState out) = level prev /\
  targetScore (nextState out) = targetScore prev /\
  cascadeCombo (nextState out) = cascadeCombo prev /\
  (cascadeOn out = None ->
     grid (nextState out) = grid prev /\ moves (nextState out) = moves prev /\
     gameStatus (nextState out) = gameStatus prev /\
     isProcessing (nextState out) = isProcessing prev) /\
  (forall g', cascadeOn out = Some g' ->
     grid (nextState out) = g' /\
     (exists m ms, findMatches g' = Ok (m :: ms)) /\
     moves (nextState out) = (moves prev - 1)%Z /\
     selectedToken (nextState out) = None /\
     isProcessing (nextState out) = true /\
     (gameStatus (nextState out) = gameStatus prev \/
      gameStatus (nextState out) = gameOver)).
Proof.
  unfold handleTokenClick.
  destruct (isProcessing cascadeState
            || negb (GameStatus_eqb (gameStatus cascadeState) playing)).
  { intro H; inversion H; subst; simpl. repeat split; auto; discriminate. }
  destruct (selectedToken cascadeState) as [sel|].
  2:{ intro H; inversion H; subst; simpl. repeat split; auto; discriminate. }
  destruct (isAdjacent sel r c).
  2:{ intro H; inversion H; subst; simpl. repeat split; auto; discriminate. }
  destruct (swapTokens (grid prev) r c sel) as [g1|e]; [|discriminate].
  cbn [bind]. destruct (findMatches g1) as [ms|e] eqn:Ems; [|discriminate].
  cbn [bind]. destruct ms as [|m ms]; cbn [length Nat.ltb Nat.leb].
  { intro H; inversion H; subst; simpl. repeat split; auto; discriminate. }
  intro H; inversion H; subst; cbn [nextState cascadeOn score level targetScore
    cascadeCombo grid moves selectedToken isProcessing gameStatus].
  repeat (split; [reflexivity|]). split; [discriminate|].
  intros g' Hg'. inversion Hg'; subst g'.
  split; [reflexivity|]. split; [now exists m, ms|].
  repeat (split; [reflexivity|]).
  destruct ((moves prev - 1 <=? 0)%Z && (score prev <? targetScore prev)%Z); auto.
Qed.

Lemma click_frame_witness :
  exists out,
    handleTokenClick (inPlay swapBoard 800 5 (Some (4, 4))) 3 4
                     (inPlay swapBoard 800 5 (Some (4, 4))) = Ok out /\
    score (nextState out) = 800%Z /\
    level (nextState out) = 1%Z /\
    targetScore (nextState out) = 1000%Z /\
    cascadeCombo (nextState out) = 0%Z /\
    (cascadeOn out = None ->
       grid (nextState out) = swapBoard /\ moves (nextState out) = 5%Z /\
       gameStatus (nextState out) = playing /\
       isProcessing (nextState out) = false) /\
    (forall g', cascadeOn out = Some g' ->
       grid (nextState out) = g' /\
       (exists m ms, findMatches g' = Ok (m :: ms)) /\
       moves (nextState out) = (5 - 1)%Z /\
       selectedToken (nextState out) = None /\
       isProcessing (nextState out) = true /\
       (gameStatus (nextState out) = playing \/
        gameStatus (nextState out) = gameOver)).
Proof.
  eexists. split; [vm_compute; reflexivity|].
  eapply (click_frame (inPlay swapBoard 800 5 (Some (4, 4)))
                      (inPlay swapBoard 800 5 (Some (4, 4))) 3 4).
  vm_compute. reflexivity.
Defined.

(** X16. A click that meets no selection, or a selection that is not one step
    away in a row or a column (the selected cell itself included), only
    selects the clicked cell: no swap is tried, the grid is not read, no
    cascade starts, and nothing else of the state changes. *)
Theorem click_selects (cascadeState prev : CascadeState) (r c : nat) :
  isProcessing cascadeState = false ->
  gameStatus cascadeState = playing ->
  (selectedToken cascadeState = None \/
   exists sel, selectedToken cascadeState = Some sel /\
     (Z.abs (Z.of_nat (fst sel) - Z.of_nat r)
      + Z.abs (Z.of_nat (snd sel) - Z.of_nat c) <> 1)%Z) ->
  handleTokenClick cascadeState r c prev
  = Ok {| nextState :=
            {| grid := grid prev; score := score prev; moves := moves prev;
               level := level prev; targetScore := targetScore prev;
               gameStatus := gameStatus prev; cascadeCombo := cascadeCombo prev;
               selectedToken := Some (r, c); isProcessing := isProcessing prev |};
          cascadeOn := None |}.
Proof.
  intros Hproc Hplay Hsel. unfold handleTokenClick. rewrite Hproc, Hplay. cbn.
  destruct Hsel as [->|(sel & -> & Hfar)]; [reflexivity|].
  destruct (isAdjacent sel r c) eqn:Eadj; [|reflexivity].
  apply isAdjacent_manhattan in Eadj. contradiction.
Qed.

Lemma click_selects_witness :
  isProcessing (inPlay swapBoard 0 20 (Some (4, 4))) = false /\
  gameStatus (inPlay swapBoard 0 20 (Some (4, 4))) = playing /\
  (selectedToken (inPlay swapBoard 0 20 (Some (4, 4))) = None \/
   exists sel, selectedToken (inPlay swapBoard 0 20 (Some (4, 4))) = Some sel /\
     (Z.abs (Z.of_nat (fst sel) - 4) + Z.abs (Z.of_nat (snd sel) - 4) <> 1)%Z) /\
  handleTokenClick (inPlay swapBoard 0 20 (Some (4, 4))) 4 4
                   (inPlay swapBoard 0 20 (Some (4, 4)))
  = Ok {| nextState := inPlay swapBoard 0 20 (Some (4, 4)); cascadeOn := None |}.
Proof.
  split; [reflexivity|]. split; [reflexivity|].
  split; [right; exists (4, 4); split; [reflexivity | discriminate]|].
  apply (click_selects (inPlay swapBoard 0 20 (Some (4, 4)))
                       (inPlay swapBoard 0 20 (Some (4, 4))) 4 4).
  - reflexivity.
  - reflexivity.
  - right. exists (4, 4). split; [reflexivity | discriminate].
Defined.

(** X17. A click is ignored (the state stays, nothing is read, nothing starts)
    while a cascade is in flight or the game is not [playing]; and a click
    that starts a cascade leaves a state in which every further click is
    ignored, until the end of the cascade turns processing off. *)
Theorem click_blocked (cascadeState prev : CascadeState) (r c : nat) :
  (isProcessing cascadeState = true \/ gameStatus cascadeState <> playing ->
   handleTokenClick cascadeState r c prev = Ok (mkOutcome prev None)) /\
  (forall out g', handleTokenClick cascadeState r c prev = Ok out ->
     cascadeOn out = Some g' ->
     forall r' c' prev',
       handleTokenClick (nextState out) r' c' prev' = Ok (mkOutcome prev' None)).
Proof.
  assert (Hblock : forall cs r0 c0 p,
             isProcessing cs = true \/ gameStatus cs <> playing ->
             handleTokenClick cs r0 c0 p = Ok (mkOutcome p None)).
  { intros cs r0 c0 p H. unfold handleTokenClick.
    destruct (isProcessing cs); [reflexivity|].
    destruct H as [H|H]; [discriminate|].
    destruct (gameStatus cs); try reflexivity. congruence. }
  split; [apply Hblock|].
  intros out g' H Hg' r' c' prev'. apply Hblock. left.
  now apply (click_commit_processing cascadeState prev r c out g').
Qed.

(* ================================================================== *)
(** ** Game over and level change across a cascade *)





(* ================================================================== *)
(** ** The resolution step: where tokens come from *)

Lemma tokensUp_row_bound (f : nat -> Cell) (k j r : nat) (t : Token) :
  nth_error (tokensUp f k) j = Some (r, t) -> r + j < k.
Proof.
  revert j. induction k as [|k IH]; intros j H; simpl in H.
  - destruct j; discriminate.
  - destruct (f k) as [t'|].
    + destruct j as [|j]; simpl in H.
      * inversion H; subst. lia.
      * specialize (IH j H). lia.
    + specialize (IH j H). lia.
Qed.

Lemma processCascade_full (oracle : Oracle) (g g' : Grid) (n k n' : nat) :
  wfGrid g -> processCascade oracle g n = Ok (g', k, n') ->
  (fullGrid g -> fullGrid g') /\ (k <> 0 -> fullGrid g').
Proof.
  intros Hg H.
  destruct (findMatches_triples g (wfGrid_rows g Hg)) as (ms & E & _).
  destruct ms as [|m ms].
  - rewrite (processCascade_unmatched oracle g n E) in H. inversion H; subst.
    split; [auto | congruence].
  - destruct (processCascade_settles oracle g n (m :: ms) Hg E ltac:(discriminate))
      as (g1 & n1 & E1 & Hwf & Hset).
    rewrite E1 in H. inversion H; subst g1 k n1.
    assert (fullGrid g') as Hfull.
    { intros r c Hr Hc.
      apply (settledFrom_full oracle (survivors g (m :: ms) c)); auto.
      apply tokensUp_length. }
    split; auto.
Qed.

(** X20. In the grid that a resolution step returns on an 8x8 grid, every token
    is either new (made by the refill for the slot it is in, and falling)
    or a token of the same column of the former grid that was no higher
    before, kept with its id and kind: gravity never lifts a token nor
    moves it sideways, and nothing appears that is neither. A grid without
    empty slot stays without, and a step that clears anything returns a
    grid without empty slot. *)
Theorem processCascade_tokens_fall (oracle : Oracle) (g g' : Grid) (n k n' : nat) :
  wfGrid g -> processCascade oracle g n = Ok (g', k, n') ->
  wfGrid g' /\
  (fullGrid g -> fullGrid g') /\
  (k <> 0 -> fullGrid g') /\
  forall r c t, get g' r c = Some t ->
    (exists i, t = freshToken oracle i r c true) \/
    (exists r0 t0, get g r0 c = Some t0 /\ r0 <= r /\ t = place c r0 t0 r /\
                   id t = id t0 /\ type t = type t0).
Proof.
  intros Hg H.
  destruct (processCascade_full oracle g g' n k n' Hg H) as [Hf1 Hf2].
  destruct (findMatches_triples g (wfGrid_rows g Hg)) as (ms & E & _).
  destruct ms as [|m ms].
  - rewrite (processCascade_unmatched oracle g n E) in H. inversion H; subst.
    split; [exact Hg|]. split; [exact Hf1|]. split; [exact Hf2|].
    intros r c t Ht. right. exists r, t. unfold place. rewrite Nat.eqb_refl. auto.
  - destruct (processCascade_settles oracle g n (m :: ms) Hg E ltac:(discriminate))
      as (g1 & n1 & E1 & Hwf & Hset).
    rewrite E1 in H. inversion H; subst g1 k n1.
    split; [exact Hwf|]. split; [exact Hf1|]. split; [exact Hf2|].
    intros r c t Ht.
    destruct (Nat.lt_ge_cases r GRID_SIZE) as [Hr|Hr];
      [|rewrite get_outside in Ht by auto; discriminate].
    destruct (Nat.lt_ge_cases c GRID_SIZE) as [Hc|Hc];
      [|rewrite get_outside in Ht by auto; discriminate].
    destruct (Hset c Hc) as (n0 & Hnew & Hold).
    set (ts := survivors g (m :: ms) c) in *.
    assert (Hlen : length ts <= GRID_SIZE) by apply tokensUp_length.
    destruct (Nat.lt_ge_cases r (GRID_SIZE - length ts)) as [Hlt|Hge].
    + left. rewrite Hnew in Ht by exact Hlt. inversion Ht. eexists. reflexivity.
    + right. destruct (nth_error ts (GRID_SIZE - 1 - r)) as [[r0 t0]|] eqn:Ej.
      2:{ apply nth_error_None in Ej. unfold GRID_SIZE in *. lia. }
      pose proof (Hold _ _ _ Ej) as Hslot.
      replace (GRID_SIZE - 1 - (GRID_SIZE - 1 - r)) with r in Hslot
        by (unfold GRID_SIZE in *; lia).
      rewrite Hslot in Ht. inversion Ht; subst t.
      pose proof (tokensUp_row_bound _ _ _ _ _ Ej) as Hbound.
      apply tokensUp_nth in Ej. destruct Ej as [_ Hcell].
      destruct (inb (r0, c) (m :: ms)); [discriminate|].
      exists r0, t0. split; [exact Hcell|]. split; [unfold GRID_SIZE in *; lia|].
      split; [reflexivity|]. unfold place. destruct (r0 =? r); split; reflexivity.
Qed.

Lemma processCascade_tokens_fall_witness :
  exists g' n',
    wfGrid comboBoard /\
    processCascade alternating comboBoard 0 = Ok (g', 3, n') /\
    wfGrid g' /\
    (fullGrid comboBoard -> fullGrid g') /\
    (3 <> 0 -> fullGrid g') /\
    forall r c t, get g' r c = Some t ->
      (exists i, t = freshToken alternating i r c true) \/
      (exists r0 t0, get comboBoard r0 c = Some t0 /\ r0 <= r /\
                     t = place c r0 t0 r /\ id t = id t0 /\ type t = type t0).
Proof.
  do 2 eexists. split; [board_wf|]. split; [vm_compute; reflexivity|].
  eapply (processCascade_tokens_fall alternating comboBoard _ 0 3 _).
  - board_wf.
  - vm_compute. reflexivity.
Defined.

(* ================================================================== *)
(** ** The game as a whole *)

Lemma createInitialGrid_good (oracle : Oracle) (n : nat) :
  goodGrid (fst (createInitialGrid oracle n)).
Proof.
  destruct (createInitialGrid_ok oracle n) as [Hwf Hok].
  split; [exact Hwf|]. split; [|exact Hok].
  intros r c Hr Hc. rewrite createInitialGrid_get by assumption. discriminate.
Qed.

Lemma isAdjacent_distinct (sel : nat * nat) (r c : nat) :
  isAdjacent sel r c = true -> (r, c) <> sel.
Proof.
  intros H E. subst sel. apply isAdjacent_manhattan in H. cbn [fst snd] in H. lia.
Qed.

Lemma swapTokens_good (g g' : Grid) (r c : nat) (sel : nat * nat) :
  goodGrid g -> swapTokens g r c sel = Ok g' -> (r, c) <> sel -> goodGrid g'.
Proof.
  intros (Hg & Hfull & Hok) H Hne.
  destruct (swapTokens_positions g g' r c sel Hg Hok H) as [Hwf Hok'].
  split; [exact Hwf|]. split; [|exact Hok'].
  destruct (swapTokens_wf g g' r c sel Hg H) as (Hr & Hc & Hsr & Hsc & _).
  destruct (swapTokens_get g g' r c sel Hg H Hne) as (A1 & A2 & A3).
  intros r' c' Hr' Hc'. destruct sel as [sr sc]. cbn [fst snd] in *.
  assert (Hcase : (r', c') = (r, c) \/ (r', c') = (sr, sc) \/
                  ((r', c') <> (r, c) /\ (r', c') <> (sr, sc))).
  { destruct (Nat.eq_dec r' r), (Nat.eq_dec c' c), (Nat.eq_dec r' sr),
      (Nat.eq_dec c' sc); subst; auto; right; right; split; congruence. }
  destruct Hcase as [E|[E|[N1 N2]]].
  - inversion E; subst. rewrite A1. specialize (Hfull _ _ Hsr Hsc).
    destruct (get g sr sc); [discriminate | congruence].
  - inversion E; subst. rewrite A2. specialize (Hfull _ _ Hr Hc).
    destruct (get g r c); [discriminate | congruence].
  - rewrite A3 by assumption. now apply Hfull.
Qed.

Lemma processCascade_good (oracle : Oracle) (g g' : Grid) (n k n' : nat) :
  goodGrid g -> processCascade oracle g n = Ok (g', k, n') -> goodGrid g'.
Proof.
  intros (Hg & Hfull & Hok) H.
  destruct (processCascade_positions oracle g g' n k n' Hg Hok H) as [Hwf Hok'].
  split; [exact Hwf|]. split; [|exact Hok'].
  exact (proj1 (processCascade_full oracle g g' n k n' Hg H) Hfull).
Qed.

Lemma cascadeLoop_good (oracle : Oracle) (fuel : nat) :
  forall g combo total n g' combo' total' n',
    goodGrid g ->
    cascadeLoop oracle fuel g combo total n = Some (Ok (g', combo', total', n')) ->
    goodGrid g'.
Proof.
  induction fuel as [|fuel IH]; intros g combo total n g' combo' total' n' Hg H;
    [discriminate|].
  cbn [cascadeLoop] in H.
  destruct (processCascade oracle g n) as [[[g1 k] n1]|e] eqn:E; [|discriminate].
  destruct k as [|k]; cbn [Nat.eqb] in H.
  - inversion H; subst. exact Hg.
  - apply (IH _ _ _ _ _ _ _ _ (processCascade_good oracle g g1 n (S k) n1 Hg E) H).
Qed.

Lemma findMatches_good (g : Grid) : wfGrid g -> exists ms, findMatches g = Ok ms.
Proof.
  intro Hg. destruct (findMatches_triples g (wfGrid_rows g Hg)) as (ms & E & _).
  now exists ms.
Qed.

(** A click on a token of a good grid of a game that is [playing], with a
    selection inside the grid, returns, and keeps all that. *)
Lemma click_good (s : CascadeState) (r c : nat) (t : Token) :
  gameStatus s = playing ->
  goodGrid (grid s) ->
  (forall sel, selectedToken s = Some sel ->
     fst sel < GRID_SIZE /\ snd sel < GRID_SIZE) ->
  cellAt (grid s) r c = Ok (Some (Some t)) ->
  exists out,
    handleTokenClick s r c s = Ok out /\
    goodGrid (grid (nextState out)) /\
    Forall goodGrid (started out) /\
    (forall sel, selectedToken (nextState out) = Some sel ->
       fst sel < GRID_SIZE /\ snd sel < GRID_SIZE) /\
    gameStatus (nextState out) <> menu /\
    score (nextState out) = score s /\ level (nextState out) = level s /\
    targetScore (nextState out) = targetScore s /\
    (moves (nextState out) <= moves s)%Z.
Proof.
  intros Hplay Hgood Hsel Hcell.
  destruct (cellAt_Some_range (grid s) r c (Some t) (proj1 Hgood) Hcell) as [Hr Hc].
  assert (Hnew : forall sel, Some (r, c) = Some sel ->
                             fst sel < GRID_SIZE /\ snd sel < GRID_SIZE).
  { intros sel E. inversion E; subst. auto. }
  unfold handleTokenClick. rewrite Hplay. cbn [GameStatus_eqb negb orb].
  rewrite orb_false_r.
  destruct (isProcessing s).
  { eexists. split; [reflexivity|]. cbn.
    split; [exact Hgood|]. split; [constructor|]. split; [exact Hsel|].
    split; [try rewrite Hplay; discriminate|]. repeat split; auto; lia. }
  destruct (selectedToken s) as [sel|] eqn:Esel.
  2:{ eexists. split; [reflexivity|]. cbn.
      split; [exact Hgood|]. split; [constructor|]. split; [exact Hnew|].
      split; [try rewrite Hplay; discriminate|]. repeat split; auto; lia. }
  destruct (isAdjacent sel r c) eqn:Eadj.
  2:{ eexists. split; [reflexivity|]. cbn.
      split; [exact Hgood|]. split; [constructor|]. split; [exact Hnew|].
      split; [try rewrite Hplay; discriminate|]. repeat split; auto; lia. }
  destruct (Hsel sel eq_refl) as [Hsr Hsc].
  destruct (swapTokens_total (grid s) r c sel (proj1 Hgood) Hr Hc Hsr Hsc)
    as (g' & Eswap & Hwf').
  rewrite Eswap. cbn [bind].
  pose proof (swapTokens_good (grid s) g' r c sel Hgood Eswap
                (isAdjacent_distinct sel r c Eadj)) as Hgood'.
  destruct (findMatches_good g' Hwf') as (ms & Ems). rewrite Ems. cbn [bind].
  destruct ms as [|m ms]; cbn [length Nat.ltb Nat.leb].
  - eexists. split; [reflexivity|]. cbn.
    split; [exact Hgood|]. split; [constructor|]. split; [discriminate|].
    split; [try rewrite Hplay; discriminate|]. repeat split; auto; lia.
  - eexists. split; [reflexivity|]. unfold started. cbn.
    split; [exact Hgood'|]. split; [constructor; [exact Hgood' | constructor]|].
    split; [discriminate|]. split.
    { destruct ((moves s - 1 <=? 0)%Z && (score s <? targetScore s)%Z);
        try rewrite Hplay; discriminate. }
    repeat split; auto; lia.
Qed.

Lemma cascadeLoop_no_throw (oracle : Oracle) (fuel : nat) :
  forall g combo total n out,
    wfGrid g ->
    cascadeLoop oracle fuel g combo total n = Some out ->
    exists res, out = Ok res.
Proof.
  induction fuel as [|fuel IH]; intros g combo total n out Hg H; [discriminate|].
  cbn [cascadeLoop] in H.
  destruct (processCascade_total oracle g n Hg) as (g1 & k & n1 & E & Hg1).
  rewrite E in H. destruct k as [|k]; cbn [Nat.eqb] in H.
  - inversion H. eexists. reflexivity.
  - now apply (IH _ _ _ _ _ Hg1 H).
Qed.

Lemma finishCascade_numbers (g : Grid) (combo total : Z) (prev : CascadeState) :
  (0 <= total)%Z ->
  (0 <= score prev)%Z -> (1 <= level prev)%Z -> (1000 <= targetScore prev)%Z ->
  (moves prev <= INITIAL_MOVES)%Z ->
  let st := finishCascade g combo total prev in
  (0 <= score st)%Z /\ (1 <= level st)%Z /\ (1000 <= targetScore st)%Z /\
  (moves st <= INITIAL_MOVES)%Z /\
  (gameStatus prev <> menu -> gameStatus st <> menu).
Proof.
  intros Ht Hs Hl Htg Hm. cbn [finishCascade score level targetScore moves gameStatus].
  destruct ((targetScore prev <=? score prev + total)%Z
            && GameStatus_eqb (gameStatus prev) playing).
  - assert (Qfloor (inject_Z (targetScore prev) * (3 # 2)) = (targetScore prev * 3 / 2)%Z)
      as -> by reflexivity.
    assert (1000 <= targetScore prev * 3 / 2)%Z
      by (apply Z.div_le_lower_bound; lia).
    unfold INITIAL_MOVES in *. repeat split; try lia. discriminate.
  - rewrite Qfloor_Z. repeat split; auto; lia.
Qed.

Lemma appReach_invariant (oracle : Oracle) (a : CascadeState * Pending) :
  appReach oracle a -> appInvariant (fst a) (snd a).
Proof.
  induction 1 as [|a b Ha IH Hstep].
  - cbn. unfold appInvariant, initialState, INITIAL_MOVES. cbn.
    split; [left; reflexivity|]. split; [discriminate|]. split; [constructor|]. lia.
  - destruct IH as (Hgrid & Hsel & Hpend & Hscore & Hlevel & Htarget & Hmoves).
    destruct Hstep as [s p n Hst | s p n Hst | s p r c t out Hplay Hcell Hclick
                      | s st p1 p2 g fuel n n' Hcasc]; cbn [fst snd] in *.
    + unfold startGame. destruct (createInitialGrid oracle n) as [gi ni] eqn:Ei.
      assert (gi = fst (createInitialGrid oracle n)) as -> by now rewrite Ei.
      unfold appInvariant, INITIAL_MOVES. cbn.
      split; [right; apply createInitialGrid_good|]. split; [discriminate|].
      split; [exact Hpend|]. lia.
    + unfold nextLevel. destruct (createInitialGrid oracle n) as [gi ni] eqn:Ei.
      assert (gi = fst (createInitialGrid oracle n)) as -> by now rewrite Ei.
      unfold appInvariant, INITIAL_MOVES. cbn.
      split; [right; apply createInitialGrid_good|]. split; [discriminate|].
      split; [exact Hpend|]. lia.
    + assert (Hgood : goodGrid (grid s))
        by (destruct Hgrid as [Hm|Hg]; [congruence | exact Hg]).
      destruct (click_good s r c t Hplay Hgood Hsel Hcell)
        as (out' & E & A & B & C & D & E1 & E2 & E3 & E4).
      rewrite Hclick in E. inversion E; subst out'.
      unfold appInvariant.
      split; [right; exact A|]. split; [exact C|].
      split; [apply Forall_app; split; assumption|]. lia.
    + apply Forall_app in Hpend. destruct Hpend as [Hp1 Hp2].
      inversion Hp2 as [|g0 p0 Hg Hp2']; subst.
      unfold processCascadingMatches in Hcasc.
      destruct (cascadeLoop oracle fuel g 0 0 n) as [[[[[g' combo] total] m]|e]|] eqn:E;
        try discriminate.
      inversion Hcasc; subst st n'; clear Hcasc.
      pose proof (cascadeLoop_good oracle fuel _ _ _ _ _ _ _ _ Hg E) as Hg'.
      apply cascadeLoop_leaves in E; [|lia].
      destruct E as (_ & Hle & Hlow & _).
      assert (0 <= total)%Z as Htot by nia.
      destruct (finishCascade_numbers g' combo total s Htot Hscore Hlevel Htarget Hmoves)
        as (N1 & N2 & N3 & N4 & _).
      unfold appInvariant.
      split; [right; exact Hg'|]. split; [exact Hsel|].
      split; [apply Forall_app; split; assumption|]. auto.
Qed.

(** X21. In every state the component can come to, from the menu, by the start,
    next-level and token buttons its screens offer and by the ends of the
    cascades in flight: the grid (past the menu) is 8x8, without empty
    slot, its tokens storing their slots; a selection lies inside the
    grid; score, level and target score have not fallen below 0, 1 and
    1000, and the moves are at most 20. No token button throws when
    clicked, and no cascade in flight throws when it runs. *)
Theorem app_safe (oracle : Oracle) (s : CascadeState) (p : Pending) :
  appReach oracle (s, p) ->
  appInvariant s p /\
  (forall r c t,
     gameStatus s = playing -> cellAt (grid s) r c = Ok (Some (Some t)) ->
     exists out, handleTokenClick s r c s = Ok out) /\
  (forall g fuel n out,
     In g p -> processCascadingMatches oracle fuel g n s = Some out ->
     exists st n', out = Ok (st, n')).
Proof.
  intro H. pose proof (appReach_invariant oracle (s, p) H) as Hinv.
  cbn [fst snd] in Hinv. split; [exact Hinv|].
  destruct Hinv as (Hgrid & Hsel & Hpend & _). split.
  - intros r c t Hplay Hcell.
    assert (Hgood : goodGrid (grid s))
      by (destruct Hgrid as [Hm|Hg]; [congruence | exact Hg]).
    destruct (click_good s r c t Hplay Hgood Hsel Hcell) as (out & E & _).
    now exists out.
  - intros g fuel n out Hin Hrun.
    rewrite Forall_forall in Hpend. destruct (Hpend g Hin) as (Hwf & _).
    unfold processCascadingMatches in Hrun.
    destruct (cascadeLoop oracle fuel g 0 0 n) as [res|] eqn:E; [|discriminate].
    destruct (cascadeLoop_no_throw oracle fuel g 0%Z 0%Z n res Hwf E)
      as ([[[g' combo] total] n'] & ->).
    inversion Hrun. eexists. eexists. reflexivity.
Qed.

Lemma app_safe_witness :
  appReach alternating (fst (startGame alternating 0), []) /\
  appInvariant (fst (startGame alternating 0)) [] /\
  (forall r c t,
     gameStatus (fst (startGame alternating 0)) = playing ->
     cellAt (grid (fst (startGame alternating 0))) r c = Ok (Some (Some t)) ->
     exists out,
       handleTokenClick (fst (startGame alternating 0)) r c
                        (fst (startGame alternating 0)) = Ok out) /\
  (forall g fuel n out,
     In g [] ->
     processCascadingMatches alternating fuel g n (fst (startGame alternating 0))
     = Some out ->
     exists st n', out = Ok (st, n')).
Proof.
  split.
  - apply (reach_step alternating (initialState, [])); [apply reach_initial|].
    apply (app_start alternating initialState [] 0). left. reflexivity.
  - apply (app_safe alternating (fst (startGame alternating 0)) []).
    apply (reach_step alternating (initialState, [])); [apply reach_initial|].
    apply (app_start alternating initialState [] 0). left. reflexivity.
Defined.
